(** * posterize.cpp: 16-colour posterization to a packed 4-bit image

    A shallow embedding of [src/posterize.cpp] and the properties its
    specification states about it.

    Conventions of the embedding.
    - Byte buffers ([uint8_t *]) are [list Z]; an index of type [size_t] is a
      [nat]; element values are [Z] with the wrap-around of every narrowing
      store written out ([Word.u8], [Word.u64], [Word.i32]).
    - An access outside a buffer is undefined behaviour in the source.  Here a
      read outside yields the default element and a write outside is dropped
      (the behaviour of the list operations used); the theorems state the
      buffer sizes they rely on.
    - [int] is 32 bits and wraps; the theorems about the cluster counters
      assume fewer than 2^31 pixels, below which no counter overflows.
    - [float] is IEEE-754 binary32, every operation rounded to nearest even,
      built on the Standard Library's [SpecFloat] (precision 24, emax 128).
    - The uniform random source is an oracle [random : nat -> Z]; the [n]-th
      pixel receives the [n]-th draw.
    - The [do ... while] loop of the k-means refinement is a recursive function
      with fuel; that 24 units of fuel always suffice is a theorem. *)

From Stdlib Require Import ZArith Lia Bool ZifyNat.
From Stdlib Require Import Floats.SpecFloat.
From stdpp Require Import base list.

Local Open Scope Z_scope.

(** ** Machine integers *)

Module Word.

Definition wrap (w : Z) (x : Z) : Z := x mod 2 ^ w.

(** [uint8_t] and [uint64_t] (also [size_t]). *)
Definition u8 : Z -> Z := wrap 8.
Definition u64 : Z -> Z := wrap 64.

(** [int]: 32 bits, two's complement. *)
Definition i32 (x : Z) : Z := (x + 2 ^ 31) mod 2 ^ 32 - 2 ^ 31.

Definition add64 (x y : Z) : Z := u64 (x + y).
Definition sub64 (x y : Z) : Z := u64 (x - y).
Definition mul64 (x y : Z) : Z := u64 (x * y).

(** Unsigned division; both operands are already in range. *)
Definition div64 (x y : Z) : Z := x / y.

End Word.

(** ** binary32 arithmetic *)

Module Float32.

Definition prec : Z := 24.
Definition emax : Z := 128.

Definition t : Type := spec_float.

(** Conversion of an integer to [float]. *)
Definition of_Z (z : Z) : t := binary_normalize prec emax z 0 false.

Definition add : t -> t -> t := SFadd prec emax.
Definition mul : t -> t -> t := SFmul prec emax.
Definition div : t -> t -> t := SFdiv prec emax.
Definition ltb : t -> t -> bool := SFltb.

(** The literals of the source: [0.299f], [0.587f], [0.114f], [255.0f],
    [1.0f], each the binary32 number nearest to the decimal. *)
Definition c0_299 : t := S754_finite false 10032775 (-25).
Definition c0_587 : t := S754_finite false 9848226 (-24).
Definition c0_114 : t := S754_finite false 15300821 (-27).
Definition c255 : t := S754_finite false 16711680 (-16).
Definition c1 : t := S754_finite false 8388608 (-23).

(** A float that does not compare below zero. *)
Definition not_negative (x : t) : bool :=
  match x with
  | S754_finite true _ _ | S754_infinity true => false
  | _ => true
  end.

End Float32.

(** ** Loops *)

(** [for (size_t i = lo; i < hi; i++) body] *)
Definition for_loop {S : Type} (lo hi : nat) (body : nat -> S -> S) (s : S) : S :=
  fold_left (fun s i => body i s) (seq lo (hi - lo)) s.

(** [for (size_t i = 0; i < hi; i += step) body] *)
Definition for_step {S : Type} (hi step : nat) (body : nat -> S -> S) (s : S) : S :=
  fold_left (fun s j => body (j * step)%nat s)
            (seq 0 ((hi + step - 1) / step)%nat) s.

(** ** Palette entries *)

Module PaletteValue.

Record t : Type := mk { r : Z; g : Z; b : Z }.

Definition black : t := mk 0 0 0.

(** Perceived luminance according to ITU BT.601. *)
Definition luminance (p : t) : Float32.t :=
  Float32.add
    (Float32.add
       (Float32.mul Float32.c0_299 (Float32.div (Float32.of_Z (r p)) Float32.c255))
       (Float32.mul Float32.c0_587 (Float32.div (Float32.of_Z (g p)) Float32.c255)))
    (Float32.mul Float32.c0_114 (Float32.div (Float32.of_Z (b p)) Float32.c255)).

(** The fields are [uint8_t]. *)
Definition valid (p : t) : Prop :=
  0 <= r p <= 255 /\ 0 <= g p <= 255 /\ 0 <= b p <= 255.

End PaletteValue.

#[export] Instance PaletteValue_inhabited : Inhabited PaletteValue.t :=
  populate PaletteValue.black.

(** ** The black-at-zero normalizer *)

(** The scan for the darkest colour: [(darkestLuma, darkestColor)]. *)
Definition findDarkest (palette : list PaletteValue.t) : Float32.t * nat :=
  for_loop 0 16
    (fun i '(darkestLuma, darkestColor) =>
       let luma := PaletteValue.luminance (palette !!! i) in
       if Float32.ltb luma darkestLuma then (luma, i)
       else (darkestLuma, darkestColor))
    (Float32.c1, 0%nat).

(** The table that swaps occurrences of 0 and [darkestColor]. *)
Definition buildLut (darkestColor : nat) : list Z :=
  let d := Z.of_nat darkestColor in
  let lut := for_loop 0 256 (fun i lut => <[i := Word.u8 (Z.of_nat i)]> lut)
                      (replicate 256 0) in
  let lut := <[Z.to_nat (Z.lor 0x00 0x00) := Word.u8 (Z.lor (Z.shiftl d 4) d)]> lut in
  let lut := <[Z.to_nat (Z.lor 0x00 d) := Word.u8 (Z.lor (Z.shiftl d 4) 0x00)]> lut in
  let lut := <[Z.to_nat (Z.lor (Z.shiftl d 4) 0x00) := Word.u8 (Z.lor 0x00 d)]> lut in
  let lut := <[Z.to_nat (Z.lor (Z.shiftl d 4) d) := Word.u8 0x00]> lut in
  lut.

(** Remap of the first [numBytes] bytes through the table. *)
Definition remapPixels (lut : list Z) (image4bit : list Z) (numBytes : nat) : list Z :=
  for_loop 0 numBytes
    (fun i image4bit => <[i := lut !!! Z.to_nat (image4bit !!! i)]> image4bit)
    image4bit.

Definition setDarkestColorToBlackAndIndex0
    (palette : list PaletteValue.t) (image4bit : list Z) (numBytes : nat)
    : list PaletteValue.t * list Z :=
  let darkestColor := snd (findDarkest palette) in
  let palette := <[darkestColor := PaletteValue.black]> palette in
  if (0 =? darkestColor)%nat then (palette, image4bit)
  else
    let tmp := palette !!! 0%nat in
    let palette := <[0%nat := palette !!! darkestColor]> palette in
    let palette := <[darkestColor := tmp]> palette in
    let lut := buildLut darkestColor in
    (palette, remapPixels lut image4bit numBytes).

(** ** The k-means refinement *)

Module Color.

(** Three [uint64_t] channels. *)
Record t : Type := mk { r : Z; g : Z; b : Z }.

Definition zero : t := mk 0 0 0.

End Color.

#[export] Instance Color_inhabited : Inhabited Color.t := populate Color.zero.

Definition numColors : nat := 16.
Definition maxIterations : nat := 24.

(** The variables the [do ... while] loop works on. *)
Module Lloyd.

Record t : Type := mk {
  rgba : list Z;
  centroids : list Color.t;
  numPixelsInCluster : list Z;
  iterations : nat;
  didChange : bool
}.

End Lloyd.

(** Random initial cluster of every pixel, in the alpha byte. *)
Definition seedClusters (random : nat -> Z) (numBytes : nat) (rgba : list Z) : list Z :=
  for_step numBytes 4
    (fun i rgba => <[(i + 3)%nat := Word.u8 (random (i / 4)%nat)]> rgba) rgba.

Definition resetClusters (cs : list Color.t * list Z) : list Color.t * list Z :=
  for_loop 0 numColors
    (fun i '(centroids, count) => (<[i := Color.zero]> centroids, <[i := 0]> count)) cs.

Definition sumClusters (numBytes : nat) (rgba : list Z) (cs : list Color.t * list Z)
    : list Color.t * list Z :=
  for_step numBytes 4
    (fun i '(centroids, count) =>
       let k := Z.to_nat (rgba !!! (i + 3)%nat) in
       let c := centroids !!! k in
       (<[k := Color.mk (Word.add64 (Color.r c) (rgba !!! (i + 0)%nat))
                        (Word.add64 (Color.g c) (rgba !!! (i + 1)%nat))
                        (Word.add64 (Color.b c) (rgba !!! (i + 2)%nat))]> centroids,
        <[k := Word.i32 (count !!! k + 1)]> count))
    cs.

Definition averageClusters (cs : list Color.t * list Z) : list Color.t :=
  let count := snd cs in
  for_loop 0 numColors
    (fun i centroids =>
       if negb (count !!! i =? 0) then
         let c := centroids !!! i in
         let n := Word.u64 (count !!! i) in
         <[i := Color.mk (Word.div64 (Color.r c) n) (Word.div64 (Color.g c) n)
                         (Word.div64 (Color.b c) n)]> centroids
       else centroids)
    (fst cs).

(** Squared distance of the pixel at byte offset [i] to a centroid, in
    [uint64_t] arithmetic. *)
Definition distance2 (c : Color.t) (rgba : list Z) (i : nat) : Z :=
  let dr := Word.sub64 (Color.r c) (rgba !!! (i + 0)%nat) in
  let dg := Word.sub64 (Color.g c) (rgba !!! (i + 1)%nat) in
  let db := Word.sub64 (Color.b c) (rgba !!! (i + 2)%nat) in
  Word.add64 (Word.add64 (Word.mul64 dr dr) (Word.mul64 dg dg)) (Word.mul64 db db).

Definition distances (centroids : list Color.t) (rgba : list Z) (i : nat) : list Z :=
  for_loop 0 numColors
    (fun j distance => <[j := distance2 (centroids !!! j) rgba i]> distance)
    (replicate numColors 0).

(** The scan for the nearest centroid: [(bestK, nearestDistance)]. *)
Definition nearest (distance : list Z) : nat * Z :=
  for_loop 1 numColors
    (fun j '(bestK, nearestDistance) =>
       if distance !!! j <? nearestDistance then (j, distance !!! j)
       else (bestK, nearestDistance))
    (0%nat, distance !!! 0%nat).

Definition assignPixels (numBytes : nat) (centroids : list Color.t) (rgba : list Z)
    : list Z * bool :=
  for_step numBytes 4
    (fun i '(rgba, didChange) =>
       let bestK := fst (nearest (distances centroids rgba i)) in
       let didChange := didChange || negb (rgba !!! (i + 3)%nat =? Z.of_nat bestK) in
       (<[(i + 3)%nat := Word.u8 (Z.of_nat bestK)]> rgba, didChange))
    (rgba, false).

(** One execution of the body of the [do ... while] loop. *)
Definition lloydBody (numBytes : nat) (st : Lloyd.t) : Lloyd.t :=
  let cs := resetClusters (Lloyd.centroids st, Lloyd.numPixelsInCluster st) in
  let cs := sumClusters numBytes (Lloyd.rgba st) cs in
  let centroids := averageClusters cs in
  let '(rgba, didChange) := assignPixels numBytes centroids (Lloyd.rgba st) in
  Lloyd.mk rgba centroids (snd cs) (S (Lloyd.iterations st)) didChange.

(** [do body while (didChange && iterations < maxIterations)] *)
Fixpoint lloydLoop (fuel : nat) (numBytes : nat) (st : Lloyd.t) : option Lloyd.t :=
  match fuel with
  | O => None
  | S fuel =>
      let st := lloydBody numBytes st in
      if Lloyd.didChange st && (Lloyd.iterations st <? maxIterations)%nat
      then lloydLoop fuel numBytes st
      else Some st
  end.

(** ** Palette and packed image *)

Definition createPalette (centroids : list Color.t) (palette : list PaletteValue.t)
    : list PaletteValue.t :=
  for_loop 0 numColors
    (fun i palette =>
       let c := centroids !!! i in
       <[i := PaletteValue.mk (Word.u8 (Color.r c)) (Word.u8 (Color.g c))
                              (Word.u8 (Color.b c))]> palette)
    palette.

(** [(~i & 1) * 4]: 4 for an even pixel, 0 for an odd one. *)
Definition shiftAmount (i : nat) : Z := Z.land (Z.lnot (Z.of_nat i)) 1 * 4.

Definition packPixels (numPixels : nat) (rgba : list Z) (image4bit : list Z) : list Z :=
  for_loop 0 numPixels
    (fun i image4bit =>
       let colorIdx := rgba !!! (i * 4 + 3)%nat in
       let byteIdx := (i / 2)%nat in
       let mask := Word.u8 (Z.shiftr 0xf0 (shiftAmount i)) in
       <[byteIdx := Word.u8 (Z.lor (Z.land (image4bit !!! byteIdx) mask)
                                     (Z.shiftl colorIdx (shiftAmount i)))]> image4bit)
    image4bit.

Definition copyPalette (palette : list PaletteValue.t) (palette24bit : list Z) : list Z :=
  for_loop 0 numColors
    (fun i palette24bit =>
       let p := palette !!! i in
       <[(i * 3 + 2)%nat := PaletteValue.b p]>
         (<[(i * 3 + 1)%nat := PaletteValue.g p]>
            (<[(i * 3 + 0)%nat := PaletteValue.r p]> palette24bit)))
    palette24bit.

(** ** The two exported functions *)

(** [posterize]: the result is the final content of [image4bit] and of
    [palette24bit]. *)
Definition posterize (fuel : nat) (random : nat -> Z)
    (image4bit palette24bit rgbaIn : list Z) (numPixels : nat)
    : option (list Z * list Z) :=
  let palette := replicate numColors PaletteValue.black in
  let numBytes := (numPixels * 4)%nat in
  let rgba := take numBytes rgbaIn in
  let rgba := seedClusters random numBytes rgba in
  let st := Lloyd.mk rgba (replicate numColors Color.zero) (replicate numColors 0)
                      0 false in
  match lloydLoop fuel numBytes st with
  | None => None
  | Some st =>
      let palette := createPalette (Lloyd.centroids st) palette in
      let image4bit := packPixels numPixels (Lloyd.rgba st) image4bit in
      let '(palette, image4bit) :=
        setDarkestColorToBlackAndIndex0 palette image4bit (numPixels / 2) in
      Some (image4bit, copyPalette palette palette24bit)
  end.

(** [applyColorsToPixelBuffer]: the result is the final content of [rgba]. *)
Definition applyColorsToPixelBuffer
    (rgba image4bit palette24bit : list Z) (numPixels : nat) : list Z :=
  for_loop 0 numPixels
    (fun i rgba =>
       let byteIdx := (i / 2)%nat in
       let colorIdx :=
         Z.to_nat (Word.u8 (Z.land (Z.shiftr (image4bit !!! byteIdx) (shiftAmount i)) 0xf)) in
       <[(i * 4 + 3)%nat := 0xff]>
         (<[(i * 4 + 2)%nat := palette24bit !!! (colorIdx * 3 + 2)%nat]>
            (<[(i * 4 + 1)%nat := palette24bit !!! (colorIdx * 3 + 1)%nat]>
               (<[(i * 4 + 0)%nat := palette24bit !!! (colorIdx * 3 + 0)%nat]> rgba))))
    rgba.

(** * Vocabulary of the statements

    Quantities the properties are stated with; none of them is part of the
    source. *)

(** The swap the table is meant to apply to each 4-bit pixel, and to a packed
    byte [(hi, lo)]: stated from the specification, for comparison with
    [buildLut]. *)
Definition swapNibble (d x : Z) : Z :=
  if x =? 0 then d else if x =? d then 0 else x.

Definition swapByte (d b : Z) : Z :=
  Z.lor (Z.shiftl (swapNibble d (Z.shiftr b 4)) 4) (swapNibble d (Z.land b 0xf)).

(** A byte that pairs a nibble in [{0, d}] with a nibble outside it. *)
Definition mixedByte (d b : Z) : bool :=
  let inSwap x := (x =? 0) || (x =? d) in
  xorb (inSwap (Z.shiftr b 4)) (inSwap (Z.land b 0xf)).

(** The table as it is built: the swap on the bytes whose nibbles are both
    in [{0, d}] or both outside it, the identity on every other byte. *)
Definition lutAsBuilt (d : nat) : list Z :=
  (fun b : nat =>
     if mixedByte (Z.of_nat d) (Z.of_nat b) then Z.of_nat b
     else swapByte (Z.of_nat d) (Z.of_nat b)) <$> seq 0 256.

(** Equality test on byte tables. *)
Fixpoint eqbList (xs ys : list Z) : bool :=
  match xs, ys with
  | [], [] => true
  | x :: xs, y :: ys => (x =? y) && eqbList xs ys
  | _, _ => false
  end.

(** The exact squared Euclidean distance in RGB space, over the integers. *)
Definition euclid2 (c : Color.t) (pr pg pb : Z) : Z :=
  (Color.r c - pr) ^ 2 + (Color.g c - pg) ^ 2 + (Color.b c - pb) ^ 2.

(** A centroid whose three channels fit 8 bits. *)
Definition Color_le_255 (c : Color.t) : Prop :=
  0 <= Color.r c <= 255 /\ 0 <= Color.g c <= 255 /\ 0 <= Color.b c <= 255.

(** The state after [n] executions of the loop body. *)
Definition lloydRuns (numBytes : nat) (st : Lloyd.t) (n : nat) : Lloyd.t :=
  Nat.iter n (lloydBody numBytes) st.

(** The nibble of pixel [i]: high nibble of byte [i / 2] for an even pixel,
    low nibble for an odd one. *)
Definition nibbleOf (image4bit : list Z) (i : nat) : Z :=
  let byte := image4bit !!! (i / 2)%nat in
  if Nat.even i then (byte / 16) mod 16 else byte mod 16.

(** Entry [i] of a palette laid out as R0,G0,B0,R1,G1,B1,... *)
Definition paletteEntry (palette24bit : list Z) (i : nat) : PaletteValue.t :=
  PaletteValue.mk (palette24bit !!! (i * 3 + 0)%nat)
                  (palette24bit !!! (i * 3 + 1)%nat)
                  (palette24bit !!! (i * 3 + 2)%nat).

(** A working buffer of [n] pixels: [4 n] bytes, the fourth byte of every
    pixel a cluster index below 16. *)
Definition bufferOk (n : nat) (rgba : list Z) : Prop :=
  length rgba = (n * 4)%nat /\
  (forall j, (j < n * 4)%nat -> 0 <= rgba !!! j <= 255) /\
  (forall p, (p < n)%nat -> rgba !!! (p * 4 + 3)%nat <= 15).

(** Sum of channel [ch] over the pixels among the first [n] that are in
    cluster [k], and their number. *)
Fixpoint clusterSum (ch : nat) (rgba : list Z) (k : nat) (n : nat) : Z :=
  match n with
  | O => 0
  | S m =>
      clusterSum ch rgba k m +
      (if (Z.to_nat (rgba !!! (m * 4 + 3)%nat) =? k)%nat
       then rgba !!! (m * 4 + ch)%nat else 0)
  end.

Fixpoint clusterCount (rgba : list Z) (k : nat) (n : nat) : Z :=
  match n with
  | O => 0
  | S m =>
      clusterCount rgba k m +
      (if (Z.to_nat (rgba !!! (m * 4 + 3)%nat) =? k)%nat then 1 else 0)
  end.

(** The centroids that one execution of the loop body computes from the
    working buffer. *)
Definition centroidsOf (n : nat) (rgba : list Z) : list Color.t :=
  averageClusters
    (sumClusters (n * 4) rgba (replicate 16 Color.zero, replicate 16 0)).

(** Cluster that the reassignment pass gives the pixel at byte offset [i]. *)
Definition bestCluster (centroids : list Color.t) (rgba : list Z) (i : nat) : nat :=
  fst (nearest (distances centroids rgba i)).

(** The state [posterize] enters the loop with. *)
Definition seeded (random : nat -> Z) (rgbaIn : list Z) (numPixels : nat) : Lloyd.t :=
  Lloyd.mk (seedClusters random (numPixels * 4) (take (numPixels * 4) rgbaIn))
           (replicate numColors Color.zero) (replicate numColors 0) 0 false.

(** A loop state over a working buffer of [n] pixels and 16 clusters. *)
Definition stateOk (n : nat) (st : Lloyd.t) : Prop :=
  bufferOk n (Lloyd.rgba st) /\
  length (Lloyd.centroids st) = 16%nat /\
  length (Lloyd.numPixelsInCluster st) = 16%nat.

(** A value of type [uint8_t]. *)
Definition isByte (x : Z) : Prop := 0 <= x <= 255.

(** Some pixel is in a different cluster in [st'] than in [st]. *)
Definition assignmentChanged (n : nat) (st st' : Lloyd.t) : Prop :=
  exists p, (p < n)%nat /\
    Lloyd.rgba st' !!! (p * 4 + 3)%nat <> Lloyd.rgba st !!! (p * 4 + 3)%nat.

(** A float that is a number (not NaN) and not negative. *)
Definition notNegativeNumber (x : Float32.t) : bool :=
  match x with
  | S754_nan | S754_finite true _ _ | S754_infinity true => false
  | _ => true
  end.

(** One term of the luminance: the weight [c] times a channel byte over 255. *)
Definition lumaTerm (c : Float32.t) (x : Z) : Float32.t :=
  Float32.mul c (Float32.div (Float32.of_Z x) Float32.c255).

(** Luminance of entry [i] of a palette. *)
Definition luma (palette : list PaletteValue.t) (i : nat) : Float32.t :=
  PaletteValue.luminance (palette !!! i).

(** The byte that the packing loop stores: [v] is the byte already there,
    [c] the colour index and [s] the shift amount. *)
Definition packByte (v c s : Z) : Z :=
  Word.u8 (Z.lor (Z.land v (Word.u8 (Z.shiftr 0xf0 s))) (Z.shiftl c s)).

(** Sum of a list of counters. *)
Definition sumList (l : list Z) : Z := foldr Z.add 0 l.

(** The nibbles [0] and [d] that the remap exchanges; a pair of nibbles of
    which exactly one is among them. *)
Definition inSwap (d x : Z) : bool := (x =? 0) || (x =? d).

Definition pairMixed (d hi lo : Z) : bool := xorb (inSwap d hi) (inSwap d lo).

(** The palette entry a centroid is narrowed to. *)
Definition narrowed (c : Color.t) : PaletteValue.t :=
  PaletteValue.mk (Word.u8 (Color.r c)) (Word.u8 (Color.g c)) (Word.u8 (Color.b c)).

(** The pair the normalizer is called with and returns in [posterize], for
    the state [st] the loop ended in. *)
Definition normalized (st : Lloyd.t) (image4bit : list Z) (numPixels : nat)
    : list PaletteValue.t * list Z :=
  setDarkestColorToBlackAndIndex0
    (createPalette (Lloyd.centroids st) (replicate numColors PaletteValue.black))
    (packPixels numPixels (Lloyd.rgba st) image4bit) (numPixels / 2).

(** The colour a pixel of cluster [k] is meant to index: black for the darkest
    cluster [d], the narrowed centroid for any other. *)
Definition clusterColour (st : Lloyd.t) (d : nat) (k : Z) : PaletteValue.t :=
  if k =? Z.of_nat d then PaletteValue.black
  else narrowed (Lloyd.centroids st !!! Z.to_nat k).

(** Lookups through a chain of stores at known offsets. *)
Ltac lookup_insert :=
  repeat first
    [ rewrite length_insert
    | rewrite list_lookup_total_insert_eq by (rewrite ?length_insert; lia)
    | rewrite list_lookup_total_insert_ne by lia
    | rewrite list_lookup_insert_ne by lia ].

(** * Properties *)

(** ** Loops *)

Section Loops.

Context {S : Type}.
Implicit Types (body : nat -> S -> S) (s : S).

Lemma for_loop_empty lo hi body s :
  (hi <= lo)%nat -> for_loop lo hi body s = s.
Proof.
  intros H. unfold for_loop. replace (hi - lo)%nat with 0%nat by lia. reflexivity.
Qed.

Lemma for_loop_last lo hi body s :
  (lo <= hi)%nat ->
  for_loop lo (Datatypes.S hi) body s = body hi (for_loop lo hi body s).
Proof.
  intros H. unfold for_loop.
  replace (Datatypes.S hi - lo)%nat with (Datatypes.S (hi - lo)) by lia.
  rewrite seq_S, fold_left_app. simpl.
  replace (lo + (hi - lo))%nat with hi by lia. reflexivity.
Qed.

(** Invariant rule: [P i s] holds of the state before iteration [i]. *)
Lemma for_loop_invariant (P : nat -> S -> Prop) lo hi body s :
  (lo <= hi)%nat ->
  P lo s ->
  (forall i t, (lo <= i < hi)%nat -> P i t -> P (Datatypes.S i) (body i t)) ->
  P hi (for_loop lo hi body s).
Proof.
  intros Hle H0 Hstep. induction hi as [|hi IH].
  - assert (lo = 0%nat) as -> by lia. exact H0.
  - destruct (decide (lo = Datatypes.S hi)) as [->|Hne].
    + rewrite for_loop_empty by lia. exact H0.
    + rewrite for_loop_last by lia. apply Hstep; [lia|].
      apply IH; [lia|]. intros i t Hi. apply Hstep. lia.
Qed.

Lemma for_step_4 n body s :
  for_step (n * 4) 4 body s = for_loop 0 n (fun j => body (j * 4)%nat) s.
Proof.
  unfold for_step, for_loop.
  replace ((n * 4 + 4 - 1) / 4)%nat with n.
  - rewrite Nat.sub_0_r. reflexivity.
  - apply (Nat.div_unique _ 4 n 3); lia.
Qed.

Lemma for_loop_ext lo hi body (body' : nat -> S -> S) s :
  (forall i t, body i t = body' i t) ->
  for_loop lo hi body s = for_loop lo hi body' s.
Proof.
  intros Hext. unfold for_loop. revert s.
  induction (seq lo (hi - lo)) as [|i l IH]; intros s; simpl; [reflexivity|].
  rewrite Hext. apply IH.
Qed.

End Loops.

(** ** The nibble remap table *)

Lemma eqbList_eq (xs ys : list Z) : eqbList xs ys = true -> xs = ys.
Proof.
  revert ys. induction xs as [|x xs IH]; intros [|y ys] H; simpl in H;
    try reflexivity; try discriminate.
  apply andb_true_iff in H. destruct H as [Hxy Hrest].
  apply Z.eqb_eq in Hxy. subst y. f_equal. apply IH, Hrest.
Qed.

Lemma buildLut_table :
  forallb (fun d => eqbList (buildLut d) (lutAsBuilt d)) (seq 1 15) = true.
Proof. vm_compute. reflexivity. Qed.

Lemma buildLut_entry (d b : nat) :
  (1 <= d <= 15)%nat -> (b < 256)%nat ->
  buildLut d !!! b =
    (if mixedByte (Z.of_nat d) (Z.of_nat b) then Z.of_nat b
     else swapByte (Z.of_nat d) (Z.of_nat b)).
Proof.
  intros Hd Hb. pose proof buildLut_table as H.
  rewrite forallb_forall in H.
  assert (In d (seq 1 15)) as Hind by (apply in_seq; lia).
  specialize (H d Hind). apply eqbList_eq in H. rewrite H.
  unfold lutAsBuilt. apply list_lookup_total_correct.
  rewrite list_lookup_fmap, lookup_seq_lt by exact Hb. reflexivity.
Qed.

Lemma swapByte_mixed_table :
  forallb (fun d => forallb (fun b =>
      implb (mixedByte (Z.of_nat d) (Z.of_nat b))
            (negb (swapByte (Z.of_nat d) (Z.of_nat b) =? Z.of_nat b)))
    (seq 0 256)) (seq 1 15) = true.
Proof. vm_compute. reflexivity. Qed.

(** C1, evaluated on the code: for every darkest index [d] in [1,15] the
    table maps a byte that pairs one nibble in [{0, d}] with one nibble
    outside it to itself, whereas the nibble-wise swap of that byte is a
    different byte.  The table therefore differs from
    [(swap(hi) << 4) | swap(lo)] on exactly these bytes. *)
Theorem buildLut_mixed_byte_not_swapped (d b : nat) :
  (1 <= d <= 15)%nat -> (b < 256)%nat ->
  mixedByte (Z.of_nat d) (Z.of_nat b) = true ->
  buildLut d !!! b = Z.of_nat b /\
  swapByte (Z.of_nat d) (Z.of_nat b) <> Z.of_nat b.
Proof.
  intros Hd Hb Hmix. split.
  - rewrite buildLut_entry, Hmix by assumption. reflexivity.
  - pose proof swapByte_mixed_table as H.
    rewrite forallb_forall in H. specialize (H d).
    rewrite forallb_forall in H.
    assert (In d (seq 1 15)) as Hind by (apply in_seq; lia).
    assert (In b (seq 0 256)) as Hinb by (apply in_seq; lia).
    specialize (H Hind b Hinb). rewrite Hmix in H. simpl in H.
    apply negb_true_iff, Z.eqb_neq in H. exact H.
Qed.

Lemma buildLut_mixed_byte_not_swapped_witness :
  buildLut 2 !!! 1%nat = 1 /\ swapByte 2 1 <> 1.
Proof.
  apply (buildLut_mixed_byte_not_swapped 2 1); [lia | lia | reflexivity].
Defined.

(** ** The distance to a centroid *)

Lemma square_le_255 (x y : Z) :
  0 <= x <= 255 -> 0 <= y <= 255 -> 0 <= (x - y) ^ 2 <= 65025.
Proof.
  intros Hx Hy. rewrite Z.pow_2_r.
  assert (-255 <= x - y <= 255) as Hd by lia.
  generalize dependent (x - y). intros d Hd. nia.
Qed.

Lemma square_sub64 (x y : Z) :
  0 <= x <= 255 -> 0 <= y <= 255 ->
  Word.mul64 (Word.sub64 x y) (Word.sub64 x y) = (x - y) ^ 2.
Proof.
  intros Hx Hy. unfold Word.mul64, Word.sub64, Word.u64, Word.wrap.
  rewrite <- Z.mul_mod by lia.
  replace ((x - y) * (x - y)) with ((x - y) ^ 2) by ring.
  pose proof (square_le_255 x y Hx Hy).
  apply Z.mod_small. change (2 ^ 64) with 18446744073709551616. lia.
Qed.

Lemma wrapped_squares_exact (c : Color.t) (pr pg pb : Z) :
  Color_le_255 c -> 0 <= pr <= 255 -> 0 <= pg <= 255 -> 0 <= pb <= 255 ->
  Word.add64
    (Word.add64 (Word.mul64 (Word.sub64 (Color.r c) pr) (Word.sub64 (Color.r c) pr))
                (Word.mul64 (Word.sub64 (Color.g c) pg) (Word.sub64 (Color.g c) pg)))
    (Word.mul64 (Word.sub64 (Color.b c) pb) (Word.sub64 (Color.b c) pb))
  = euclid2 c pr pg pb.
Proof.
  intros (Hr & Hg & Hb) H0 H1 H2. unfold euclid2.
  rewrite !square_sub64 by assumption.
  pose proof (square_le_255 _ _ Hr H0) as Sr.
  pose proof (square_le_255 _ _ Hg H1) as Sg.
  pose proof (square_le_255 _ _ Hb H2) as Sb.
  revert Sr Sg Sb.
  generalize ((Color.r c - pr) ^ 2) ((Color.g c - pg) ^ 2) ((Color.b c - pb) ^ 2).
  intros sr sg sb Sr Sg Sb.
  unfold Word.add64, Word.u64, Word.wrap.
  change (2 ^ 64) with 18446744073709551616.
  rewrite (Z.mod_small (sr + sg)) by lia.
  apply Z.mod_small. lia.
Qed.

(** C4: when every channel of the centroid is at most 255, the distance
    computed in wrapping unsigned 64-bit arithmetic (the delta
    [centroid - pixel] taken modulo 2^64, then squared and summed modulo
    2^64) is the exact squared Euclidean distance between the pixel and the
    centroid. *)
Theorem distance2_exact (c : Color.t) (rgba : list Z) (i : nat) :
  Color_le_255 c ->
  0 <= rgba !!! (i + 0)%nat <= 255 ->
  0 <= rgba !!! (i + 1)%nat <= 255 ->
  0 <= rgba !!! (i + 2)%nat <= 255 ->
  distance2 c rgba i =
    euclid2 c (rgba !!! (i + 0)%nat) (rgba !!! (i + 1)%nat) (rgba !!! (i + 2)%nat).
Proof.
  intros Hc H0 H1 H2. unfold distance2.
  apply wrapped_squares_exact; assumption.
Qed.

Lemma distance2_exact_witness :
  distance2 (Color.mk 10 200 30) [250; 7; 30; 5] 0 = 94849.
Proof.
  refine (eq_trans (distance2_exact (Color.mk 10 200 30) [250; 7; 30; 5] 0 _ _ _ _) _).
  - unfold Color_le_255. simpl. lia.
  - simpl. lia.
  - simpl. lia.
  - simpl. lia.
  - reflexivity.
Defined.

(** ** Termination of the refinement loop *)

Lemma lloydBody_iterations numBytes st :
  Lloyd.iterations (lloydBody numBytes st) = S (Lloyd.iterations st).
Proof.
  unfold lloydBody. destruct (assignPixels _ _ _) as [rgba' changed]. reflexivity.
Qed.

Lemma lloydRuns_iterations numBytes st n :
  Lloyd.iterations (lloydRuns numBytes st n) = (n + Lloyd.iterations st)%nat.
Proof.
  induction n as [|n IH]; [reflexivity|].
  unfold lloydRuns in *. simpl. rewrite lloydBody_iterations, IH. reflexivity.
Qed.

Lemma lloydRuns_shift numBytes st n :
  lloydRuns numBytes (lloydBody numBytes st) n = lloydRuns numBytes st (S n).
Proof. unfold lloydRuns. symmetry. apply Nat.iter_succ_r. Qed.

(** The loop from any state: it stops after the first execution of the body
    that leaves [didChange] false or the counter at [maxIterations] or
    more. *)
Lemma lloydLoop_runs numBytes fuel : forall st,
  (1 <= fuel)%nat -> (maxIterations <= fuel + Lloyd.iterations st)%nat ->
  exists n, (1 <= n <= fuel)%nat /\
    lloydLoop fuel numBytes st = Some (lloydRuns numBytes st n) /\
    (forall m, (1 <= m < n)%nat ->
       Lloyd.didChange (lloydRuns numBytes st m) = true /\
       (Lloyd.iterations (lloydRuns numBytes st m) < maxIterations)%nat) /\
    (Lloyd.didChange (lloydRuns numBytes st n) = false \/
     (maxIterations <= Lloyd.iterations (lloydRuns numBytes st n))%nat).
Proof.
  induction fuel as [|fuel IH]; intros st Hfuel Hcap; [lia|].
  simpl.
  destruct (Lloyd.didChange (lloydBody numBytes st)) eqn:Hchg; simpl.
  - destruct (Nat.ltb_spec (Lloyd.iterations (lloydBody numBytes st)) maxIterations)
      as [Hlt|Hge].
    + pose proof (lloydBody_iterations numBytes st) as Hit.
      destruct (IH (lloydBody numBytes st)) as (n & Hn & Hrun & Hbefore & Hlast);
        [lia | lia |].
      exists (S n). split; [lia|]. rewrite <- lloydRuns_shift.
      split; [exact Hrun|]. split; [|exact Hlast].
      intros m Hm. destruct m as [|m]; [lia|]. rewrite <- lloydRuns_shift.
      destruct m as [|m].
      * unfold lloydRuns. simpl. split; [exact Hchg | exact Hlt].
      * apply Hbefore. lia.
    + exists 1%nat. split; [lia|]. split; [reflexivity|]. split; [intros m Hm; lia|].
      right. exact Hge.
  - exists 1%nat. split; [lia|]. split; [reflexivity|]. split; [intros m Hm; lia|].
    left. exact Hchg.
Qed.

(** With at least 24 units of fuel the loop returns. *)
Lemma lloydLoop_returns (fuel numBytes : nat) (st : Lloyd.t) :
  Lloyd.iterations st = 0%nat -> (24 <= fuel)%nat ->
  exists n, (1 <= n <= 24)%nat /\
    lloydLoop fuel numBytes st = Some (lloydRuns numBytes st n).
Proof.
  intros Hzero Hfuel.
  destruct (lloydLoop_runs numBytes fuel st) as (n & Hn & Hrun & Hbefore & _);
    [lia | unfold maxIterations; lia |].
  exists n. split; [|exact Hrun]. split; [lia|].
  destruct (le_lt_dec n 24) as [|Hgt]; [assumption|].
  destruct (Hbefore 24%nat) as [_ Hlt]; [lia|].
  rewrite lloydRuns_iterations, Hzero in Hlt. unfold maxIterations in Hlt. lia.
Qed.

(** ** Reading and writing buffers *)

Lemma shiftAmount_even_odd (i : nat) :
  shiftAmount i = if Nat.even i then 4 else 0.
Proof.
  unfold shiftAmount.
  change 1 with (Z.ones 1). rewrite Z.land_ones by lia. change (2 ^ 1) with 2.
  unfold Z.lnot. rewrite Z.pred_succ || idtac.
  destruct (Nat.even i) eqn:He.
  - apply Nat.even_spec in He. destruct He as [k ->].
    replace (Z.pred (- Z.of_nat (2 * k))) with (1 + (- Z.of_nat k - 1) * 2) by lia.
    rewrite Z.mod_add by lia. reflexivity.
  - assert (Nat.odd i = true) as Ho by (rewrite <- Nat.negb_even, He; reflexivity).
    apply Nat.odd_spec in Ho. destruct Ho as [k ->].
    replace (Z.pred (- Z.of_nat (2 * k + 1))) with (0 + (- Z.of_nat k - 1) * 2) by lia.
    rewrite Z.mod_add by lia. reflexivity.
Qed.

(** ** The renderer *)

Lemma extract_nibble (image4bit : list Z) (i : nat) :
  Word.u8 (Z.land (Z.shiftr (image4bit !!! (i / 2)%nat) (shiftAmount i)) 0xf)
  = nibbleOf image4bit i.
Proof.
  unfold nibbleOf. rewrite shiftAmount_even_odd.
  change 0xf with (Z.ones 4). rewrite Z.land_ones by lia. change (2 ^ 4) with 16.
  assert (forall x, Word.u8 (x mod 16) = x mod 16) as Hu8.
  { intros x. unfold Word.u8, Word.wrap. change (2 ^ 8) with 256.
    pose proof (Z.mod_pos_bound x 16). apply Z.mod_small. lia. }
  rewrite Hu8. destruct (Nat.even i).
  - rewrite Z.shiftr_div_pow2 by lia. reflexivity.
  - rewrite Z.shiftr_0_r. reflexivity.
Qed.

Lemma nibbleOf_range (image4bit : list Z) (i : nat) :
  0 <= nibbleOf image4bit i <= 15.
Proof.
  unfold nibbleOf. destruct (Nat.even i).
  - pose proof (Z.mod_pos_bound (image4bit !!! (i / 2)%nat / 16) 16). lia.
  - pose proof (Z.mod_pos_bound (image4bit !!! (i / 2)%nat) 16). lia.
Qed.

(** C8: for every palette, packed image and pixel count [n], with an output
    buffer that holds the [4 n] bytes, [applyColorsToPixelBuffer] leaves in
    bytes [4 i .. 4 i + 2] of the output the three bytes of the palette
    entry indexed by the nibble of pixel [i] and in byte [4 i + 3] the value
    0xFF, for every pixel [i < n]; every byte from offset [4 n] on keeps its
    content and the buffer keeps its length. *)
Theorem applyColorsToPixelBuffer_renders
    (rgba image4bit palette24bit : list Z) (numPixels : nat) :
  (numPixels * 4 <= length rgba)%nat ->
  let out := applyColorsToPixelBuffer rgba image4bit palette24bit numPixels in
  length out = length rgba /\
  (forall i, (i < numPixels)%nat ->
     let colorIdx := Z.to_nat (nibbleOf image4bit i) in
     out !!! (i * 4 + 0)%nat = palette24bit !!! (colorIdx * 3 + 0)%nat /\
     out !!! (i * 4 + 1)%nat = palette24bit !!! (colorIdx * 3 + 1)%nat /\
     out !!! (i * 4 + 2)%nat = palette24bit !!! (colorIdx * 3 + 2)%nat /\
     out !!! (i * 4 + 3)%nat = 0xff) /\
  (forall j, (numPixels * 4 <= j)%nat -> out !! j = rgba !! j).
Proof.
  intros Hlen out. subst out. unfold applyColorsToPixelBuffer.
  apply (for_loop_invariant
    (fun k (out : list Z) =>
       length out = length rgba /\
       (forall i, (i < k)%nat ->
          let colorIdx := Z.to_nat (nibbleOf image4bit i) in
          out !!! (i * 4 + 0)%nat = palette24bit !!! (colorIdx * 3 + 0)%nat /\
          out !!! (i * 4 + 1)%nat = palette24bit !!! (colorIdx * 3 + 1)%nat /\
          out !!! (i * 4 + 2)%nat = palette24bit !!! (colorIdx * 3 + 2)%nat /\
          out !!! (i * 4 + 3)%nat = 0xff) /\
       (forall j, (k * 4 <= j)%nat -> out !! j = rgba !! j))).
  - lia.
  - split; [reflexivity|]. split; [intros i Hi; lia | reflexivity].
  - intros k out Hk (Hl & Hdone & Hrest).
    rewrite extract_nibble. split; [|split].
    + lookup_insert. exact Hl.
    + intros i Hi. destruct (decide (i = k)) as [->|Hne].
      * cbv zeta. lookup_insert. repeat split; reflexivity.
      * cbv zeta. lookup_insert. apply Hdone. lia.
    + intros j Hj. lookup_insert. apply Hrest. lia.
Qed.

Lemma applyColorsToPixelBuffer_renders_witness :
  let palette24bit := Z.of_nat <$> seq 100 48 in
  let out := applyColorsToPixelBuffer [1; 2; 3; 4; 5; 6; 7; 8; 9] [0x2f] palette24bit 2 in
  length out = 9%nat /\
  (forall i, (i < 2)%nat ->
     let colorIdx := Z.to_nat (nibbleOf [0x2f] i) in
     out !!! (i * 4 + 0)%nat = palette24bit !!! (colorIdx * 3 + 0)%nat /\
     out !!! (i * 4 + 1)%nat = palette24bit !!! (colorIdx * 3 + 1)%nat /\
     out !!! (i * 4 + 2)%nat = palette24bit !!! (colorIdx * 3 + 2)%nat /\
     out !!! (i * 4 + 3)%nat = 0xff) /\
  (forall j, (2 * 4 <= j)%nat -> out !! j = [1; 2; 3; 4; 5; 6; 7; 8; 9] !! j).
Proof.
  intros palette24bit.
  apply (applyColorsToPixelBuffer_renders [1; 2; 3; 4; 5; 6; 7; 8; 9] [0x2f]
           palette24bit 2).
  simpl. lia.
Defined.

(** ** Luminance is never below zero *)

Module Float32Facts.

Import Float32.

Lemma binary_round_aux_sign mx ex lx :
  not_negative (binary_round_aux prec emax false mx ex lx) = true.
Proof.
  unfold binary_round_aux.
  destruct (shr_fexp prec emax mx ex lx) as [mrs' e'].
  destruct (shr_fexp prec emax _ e' loc_Exact) as [mrs'' e''].
  destruct (shr_m mrs''); [reflexivity| |reflexivity].
  destruct (Z.leb e'' (emax - prec)); reflexivity.
Qed.

Lemma binary_round_sign mx ex :
  not_negative (binary_round prec emax false mx ex) = true.
Proof.
  unfold binary_round. destruct (shl_align _ _ _) as [mz ez].
  apply binary_round_aux_sign.
Qed.

Lemma of_Z_sign z : 0 <= z -> not_negative (of_Z z) = true.
Proof.
  intros Hz. unfold of_Z, binary_normalize.
  destruct z as [|p|p]; [reflexivity | apply binary_round_sign | lia].
Qed.

Lemma add_sign x y :
  not_negative x = true -> not_negative y = true -> not_negative (add x y) = true.
Proof.
  unfold add.
  destruct x as [sx|sx| |sx mx ex], y as [sy|sy| |sy my ey];
    try destruct sx; try destruct sy; simpl; intros Hx Hy;
    try reflexivity; try discriminate.
  apply binary_round_sign.
Qed.

Lemma mul_sign x y :
  not_negative x = true -> not_negative y = true -> not_negative (mul x y) = true.
Proof.
  unfold mul.
  destruct x as [sx|sx| |sx mx ex], y as [sy|sy| |sy my ey];
    try destruct sx; try destruct sy; simpl; intros Hx Hy;
    try reflexivity; try discriminate.
  apply binary_round_aux_sign.
Qed.

Lemma div_c255_sign x :
  not_negative x = true -> not_negative (div x c255) = true.
Proof.
  unfold div, c255.
  destruct x as [sx|sx| |sx mx ex]; try destruct sx; simpl; intros Hx;
    try reflexivity; try discriminate.
  match goal with
  | |- context [SFdiv_core_binary ?p ?e ?m1 ?e1 ?m2 ?e2] =>
      destruct (SFdiv_core_binary p e m1 e1 m2 e2) as [[mz ez] lz]
  end.
  apply binary_round_aux_sign.
Qed.

(** A float that is not negative does not compare below (plus) zero. *)
Lemma ltb_zero x : not_negative x = true -> ltb x (S754_zero false) = false.
Proof.
  destruct x as [sx|sx| |sx mx ex]; try destruct sx; simpl; intros Hx;
    try reflexivity; discriminate.
Qed.

End Float32Facts.

Lemma luminance_black :
  PaletteValue.luminance PaletteValue.black = S754_zero false.
Proof. reflexivity. Qed.

Lemma luminance_sign (p : PaletteValue.t) :
  PaletteValue.valid p ->
  Float32.not_negative (PaletteValue.luminance p) = true.
Proof.
  intros (Hr & Hg & Hb). unfold PaletteValue.luminance.
  repeat first
    [ apply Float32Facts.add_sign
    | apply Float32Facts.mul_sign
    | apply Float32Facts.div_c255_sign
    | apply Float32Facts.of_Z_sign; lia
    | reflexivity ].
Qed.

(** No valid palette entry has a luminance below that of black. *)
Lemma luminance_not_below_black (p : PaletteValue.t) :
  PaletteValue.valid p ->
  Float32.ltb (PaletteValue.luminance p)
              (PaletteValue.luminance PaletteValue.black) = false.
Proof.
  intros Hp. rewrite luminance_black.
  apply Float32Facts.ltb_zero, luminance_sign, Hp.
Qed.

(** ** The black-at-zero normalizer *)

Lemma valid_black : PaletteValue.valid PaletteValue.black.
Proof. unfold PaletteValue.valid. simpl. lia. Qed.

Lemma valid_lookup_total (palette : list PaletteValue.t) (i : nat) :
  Forall PaletteValue.valid palette -> PaletteValue.valid (palette !!! i).
Proof.
  intros Hall. rewrite list_lookup_total_alt.
  destruct (palette !! i) as [p|] eqn:Hp; simpl.
  - eapply Forall_lookup_1; eassumption.
  - apply valid_black.
Qed.

(** The darkest index is one of the 16 entries. *)
Lemma findDarkest_index (palette : list PaletteValue.t) :
  (snd (findDarkest palette) < 16)%nat.
Proof.
  unfold findDarkest.
  assert (let s := for_loop 0 16
            (fun i '(darkestLuma, darkestColor) =>
               let luma := PaletteValue.luminance (palette !!! i) in
               if Float32.ltb luma darkestLuma then (luma, i)
               else (darkestLuma, darkestColor)) (Float32.c1, 0%nat) in
          snd s = 0%nat \/ (snd s < 16)%nat) as H.
  { apply (for_loop_invariant
             (fun i (s : Float32.t * nat) => snd s = 0%nat \/ (snd s < i)%nat)).
    - lia.
    - left. reflexivity.
    - intros i [dl dc] Hi Hinv. cbv zeta.
      destruct (Float32.ltb _ dl); simpl in *; lia. }
  cbv zeta in H. lia.
Qed.

(** With black at entry 0 the scan settles on entry 0. *)
Lemma findDarkest_black_first (palette : list PaletteValue.t) :
  Forall PaletteValue.valid palette ->
  palette !! 0%nat = Some PaletteValue.black ->
  findDarkest palette = (S754_zero false, 0%nat).
Proof.
  intros Hall H0. unfold findDarkest.
  match goal with
  | |- for_loop 0 16 ?body ?s0 = _ =>
      assert ((16%nat = 0%nat /\ for_loop 0 16 body s0 = (Float32.c1, 0%nat)) \/
              ((1 <= 16)%nat /\ for_loop 0 16 body s0 = (S754_zero false, 0%nat)))
        as Hend
  end.
  { apply (for_loop_invariant
             (fun i (s : Float32.t * nat) =>
                (i = 0%nat /\ s = (Float32.c1, 0%nat)) \/
                ((1 <= i)%nat /\ s = (S754_zero false, 0%nat)))).
    - lia.
    - left. split; reflexivity.
    - intros i s Hi [[-> ->]|[Hi1 ->]]; right; (split; [lia|]).
      + rewrite (list_lookup_total_correct _ _ _ H0). reflexivity.
      + cbv zeta. rewrite <- luminance_black at 1.
        rewrite luminance_not_below_black; [reflexivity|].
        apply valid_lookup_total, Hall. }
  destruct Hend as [[Hi _]|[_ Hs]]; [lia | exact Hs].
Qed.

(** C9: applied to a palette whose entry 0 is already (0,0,0), the
    normalizer returns the palette and the packed image it was given. *)
Theorem setDarkestColorToBlackAndIndex0_normalized_noop
    (palette : list PaletteValue.t) (image4bit : list Z) (numBytes : nat) :
  Forall PaletteValue.valid palette ->
  palette !! 0%nat = Some PaletteValue.black ->
  setDarkestColorToBlackAndIndex0 palette image4bit numBytes = (palette, image4bit).
Proof.
  intros Hall H0. unfold setDarkestColorToBlackAndIndex0.
  rewrite (findDarkest_black_first palette Hall H0). simpl.
  rewrite (list_insert_id palette 0 PaletteValue.black H0). reflexivity.
Qed.

Lemma setDarkestColorToBlackAndIndex0_normalized_noop_witness :
  let palette := PaletteValue.black :: replicate 15 (PaletteValue.mk 10 20 30) in
  setDarkestColorToBlackAndIndex0 palette [0x01; 0x20] 2 = (palette, [0x01; 0x20]).
Proof.
  intros palette.
  apply (setDarkestColorToBlackAndIndex0_normalized_noop palette [0x01; 0x20] 2).
  - unfold palette. simpl.
    repeat (apply Forall_cons; split; [unfold PaletteValue.valid; simpl; lia|]).
    apply Forall_nil. exact I.
  - reflexivity.
Defined.

(** ** The palette that [posterize] writes *)

Lemma u8_range (x : Z) : 0 <= Word.u8 x <= 255.
Proof.
  unfold Word.u8, Word.wrap. change (2 ^ 8) with 256.
  pose proof (Z.mod_pos_bound x 256). lia.
Qed.

Lemma u8_small (x : Z) : 0 <= x <= 255 -> Word.u8 x = x.
Proof.
  intros Hx. unfold Word.u8, Word.wrap. change (2 ^ 8) with 256.
  apply Z.mod_small. lia.
Qed.

Lemma createPalette_entries (centroids : list Color.t) (palette : list PaletteValue.t) :
  length palette = 16%nat ->
  length (createPalette centroids palette) = 16%nat /\
  forall i, (i < 16)%nat ->
    createPalette centroids palette !!! i =
      PaletteValue.mk (Word.u8 (Color.r (centroids !!! i)))
                      (Word.u8 (Color.g (centroids !!! i)))
                      (Word.u8 (Color.b (centroids !!! i))).
Proof.
  intros Hlen. unfold createPalette, numColors.
  assert (let out := for_loop 0 16
            (fun i palette =>
               let c := centroids !!! i in
               <[i := PaletteValue.mk (Word.u8 (Color.r c)) (Word.u8 (Color.g c))
                                      (Word.u8 (Color.b c))]> palette) palette in
          length out = 16%nat /\
          forall i, (i < 16)%nat ->
            out !!! i = PaletteValue.mk (Word.u8 (Color.r (centroids !!! i)))
                                        (Word.u8 (Color.g (centroids !!! i)))
                                        (Word.u8 (Color.b (centroids !!! i)))) as H.
  { apply (for_loop_invariant
             (fun k (out : list PaletteValue.t) =>
                length out = 16%nat /\
                forall i, (i < k)%nat ->
                  out !!! i = PaletteValue.mk (Word.u8 (Color.r (centroids !!! i)))
                                              (Word.u8 (Color.g (centroids !!! i)))
                                              (Word.u8 (Color.b (centroids !!! i))))).
    - lia.
    - split; [exact Hlen | intros i Hi; lia].
    - intros k out Hk [Hl Hdone]. cbv zeta. split.
      + rewrite length_insert. exact Hl.
      + intros i Hi. destruct (decide (i = k)) as [->|Hne].
        * rewrite list_lookup_total_insert_eq by lia. reflexivity.
        * rewrite list_lookup_total_insert_ne by lia. apply Hdone. lia. }
  exact H.
Qed.

Lemma createPalette_valid (centroids : list Color.t) (palette : list PaletteValue.t) :
  length palette = 16%nat ->
  Forall PaletteValue.valid (createPalette centroids palette).
Proof.
  intros Hlen. destruct (createPalette_entries centroids palette Hlen) as [Hl Hent].
  apply Forall_lookup_2. intros i p Hp.
  assert (i < 16)%nat as Hi by (rewrite <- Hl; eapply lookup_lt_Some; exact Hp).
  apply list_lookup_total_correct in Hp. rewrite Hent in Hp by exact Hi. subst p.
  unfold PaletteValue.valid. simpl.
  repeat split; apply u8_range.
Qed.

(** What the normalizer leaves in the palette. *)
Lemma setDarkestColorToBlackAndIndex0_palette
    (palette : list PaletteValue.t) (image4bit : list Z) (numBytes : nat) :
  length palette = 16%nat ->
  Forall PaletteValue.valid palette ->
  let palette' := fst (setDarkestColorToBlackAndIndex0 palette image4bit numBytes) in
  length palette' = 16%nat /\
  Forall PaletteValue.valid palette' /\
  palette' !!! 0%nat = PaletteValue.black.
Proof.
  intros Hlen Hall. unfold setDarkestColorToBlackAndIndex0.
  pose proof (findDarkest_index palette) as Hd.
  set (d := snd (findDarkest palette)) in *.
  assert (Forall PaletteValue.valid (<[d := PaletteValue.black]> palette)) as Hall1
    by (apply Forall_insert; [exact Hall | apply valid_black]).
  destruct (Nat.eqb_spec 0 d) as [Hz|Hnz]; cbv zeta; simpl.
  - split; [|split].
    + rewrite length_insert. exact Hlen.
    + exact Hall1.
    + rewrite <- Hz. apply list_lookup_total_insert_eq. lia.
  - split; [|split].
    + rewrite !length_insert. exact Hlen.
    + apply Forall_insert; [apply Forall_insert|]; try exact Hall1;
        apply valid_lookup_total, Hall1.
    + rewrite list_lookup_total_insert_ne by lia.
      rewrite list_lookup_total_insert_eq by (rewrite length_insert; lia).
      apply list_lookup_total_insert_eq. lia.
Qed.

Lemma copyPalette_entries (palette : list PaletteValue.t) (palette24bit : list Z) :
  (48 <= length palette24bit)%nat ->
  let out := copyPalette palette palette24bit in
  length out = length palette24bit /\
  (forall i, (i < 16)%nat -> paletteEntry out i = palette !!! i) /\
  (forall j, (48 <= j)%nat -> out !! j = palette24bit !! j).
Proof.
  intros Hlen out. subst out. unfold copyPalette, numColors.
  apply (for_loop_invariant
    (fun k (out : list Z) =>
       length out = length palette24bit /\
       (forall i, (i < k)%nat -> paletteEntry out i = palette !!! i) /\
       (forall j, (k * 3 <= j)%nat -> out !! j = palette24bit !! j))).
  - lia.
  - split; [reflexivity|]. split; [intros i Hi; lia | reflexivity].
  - intros k out Hk (Hl & Hdone & Hrest). cbv zeta. split; [|split].
    + lookup_insert. exact Hl.
    + intros i Hi. unfold paletteEntry. destruct (decide (i = k)) as [->|Hne].
      * lookup_insert. destruct (palette !!! k). reflexivity.
      * lookup_insert. apply Hdone. lia.
    + intros j Hj. lookup_insert. apply Hrest. lia.
Qed.

(** C3: on every input, [posterize] returns (24 units of fuel are enough),
    and in the palette it has written the bytes 0, 1 and 2 are 0, so that
    entry 0 is pure black, and no entry has a BT.601 luma strictly below
    that of entry 0. *)
Theorem posterize_entry0_black_and_darkest
    (fuel : nat) (random : nat -> Z) (image4bit palette24bit rgbaIn : list Z)
    (numPixels : nat) :
  (24 <= fuel)%nat -> (48 <= length palette24bit)%nat ->
  exists image' palette',
    posterize fuel random image4bit palette24bit rgbaIn numPixels
      = Some (image', palette') /\
    palette' !!! 0%nat = 0 /\ palette' !!! 1%nat = 0 /\ palette' !!! 2%nat = 0 /\
    forall i, (i < 16)%nat ->
      Float32.ltb (PaletteValue.luminance (paletteEntry palette' i))
                  (PaletteValue.luminance (paletteEntry palette' 0)) = false.
Proof.
  intros Hfuel Hlen. unfold posterize.
  match goal with
  | |- context [lloydLoop fuel ?nb ?st] =>
      destruct (lloydLoop_returns fuel nb st) as (n & _ & ->); [reflexivity | exact Hfuel |];
      set (final := lloydRuns nb st n)
  end.
  assert (length (replicate numColors PaletteValue.black) = 16%nat) as Hl0
    by reflexivity.
  pose proof (setDarkestColorToBlackAndIndex0_palette
                (createPalette (Lloyd.centroids final)
                               (replicate numColors PaletteValue.black))
                (packPixels numPixels (Lloyd.rgba final) image4bit)
                (numPixels / 2)
                (proj1 (createPalette_entries (Lloyd.centroids final) _ Hl0))
                (createPalette_valid (Lloyd.centroids final) _ Hl0)) as Hnorm.
  destruct (setDarkestColorToBlackAndIndex0 _ _ _) as [palette image'].
  cbv zeta in Hnorm. unfold fst in Hnorm.
  destruct Hnorm as (Hl & Hvalid & Hblack).
  destruct (copyPalette_entries palette palette24bit Hlen) as (_ & Hent & _).
  exists image', (copyPalette palette palette24bit).
  split; [reflexivity|].
  revert Hent. generalize (copyPalette palette palette24bit). intros out Hent.
  pose proof (Hent 0%nat ltac:(lia)) as H0. rewrite Hblack in H0.
  split; [exact (f_equal PaletteValue.r H0)|].
  split; [exact (f_equal PaletteValue.g H0)|].
  split; [exact (f_equal PaletteValue.b H0)|].
  intros i Hi. rewrite H0, (Hent i Hi).
  apply luminance_not_below_black, valid_lookup_total, Hvalid.
Qed.

Lemma posterize_entry0_black_and_darkest_witness :
  exists image' palette',
    posterize 24 (fun i => Z.of_nat i) [0xab; 0xcd] (replicate 48 7)
              [200; 200; 200; 9; 0; 0; 0; 1; 10; 20; 30; 0] 3
      = Some (image', palette') /\
    palette' !!! 0%nat = 0 /\ palette' !!! 1%nat = 0 /\ palette' !!! 2%nat = 0 /\
    forall i, (i < 16)%nat ->
      Float32.ltb (PaletteValue.luminance (paletteEntry palette' i))
                  (PaletteValue.luminance (paletteEntry palette' 0)) = false.
Proof.
  apply (posterize_entry0_black_and_darkest 24 (fun i => Z.of_nat i) [0xab; 0xcd]
           (replicate 48 7) [200; 200; 200; 9; 0; 0; 0; 1; 10; 20; 30; 0] 3).
  - lia.
  - simpl. lia.
Defined.

(** C10: with [numPixels = 0], [posterize] returns the packed image it was
    given, no byte of it written, and a palette of 48 zero bytes: 16 black
    entries. *)
Theorem posterize_no_pixels
    (fuel : nat) (random : nat -> Z) (image4bit palette24bit rgbaIn : list Z) :
  (1 <= fuel)%nat -> length palette24bit = 48%nat ->
  posterize fuel random image4bit palette24bit rgbaIn 0
    = Some (image4bit, replicate 48 0).
Proof.
  intros Hfuel Hlen. destruct fuel as [|fuel]; [lia|].
  do 48 (destruct palette24bit as [|? palette24bit]; [discriminate|]).
  destruct palette24bit; [|discriminate].
  vm_compute. reflexivity.
Qed.

Lemma posterize_no_pixels_witness :
  posterize 24 (fun _ => 5) [0xab; 0xcd] (Z.of_nat <$> seq 1 48) [] 0
    = Some ([0xab; 0xcd], replicate 48 0).
Proof.
  apply (posterize_no_pixels 24 (fun _ => 5) [0xab; 0xcd] (Z.of_nat <$> seq 1 48) []).
  - lia.
  - reflexivity.
Defined.

(** ** The working buffer *)

Lemma clusterCount_range rgba k n : 0 <= clusterCount rgba k n <= Z.of_nat n.
Proof.
  induction n as [|n IH]; simpl clusterCount; [lia|].
  destruct (_ =? k)%nat; lia.
Qed.

Lemma clusterSum_range ch rgba k n m :
  bufferOk n rgba -> (ch < 3)%nat -> (m <= n)%nat ->
  0 <= clusterSum ch rgba k m <= 255 * clusterCount rgba k m.
Proof.
  intros (_ & Hbytes & _) Hch. induction m as [|m IH]; intros Hm;
    simpl clusterSum; simpl clusterCount; [lia|].
  specialize (IH ltac:(lia)).
  pose proof (Hbytes (m * 4 + ch)%nat ltac:(lia)).
  destruct (_ =? k)%nat; lia.
Qed.

Lemma resetClusters_zero (centroids : list Color.t) (count : list Z) :
  length centroids = 16%nat -> length count = 16%nat ->
  resetClusters (centroids, count) = (replicate 16 Color.zero, replicate 16 0).
Proof.
  intros Hc Hn.
  do 16 (destruct centroids as [|? centroids]; [discriminate|]).
  destruct centroids; [|discriminate].
  do 16 (destruct count as [|? count]; [discriminate|]).
  destruct count; [|discriminate].
  reflexivity.
Qed.

Lemma u64_small x : 0 <= x < 2 ^ 64 -> Word.u64 x = x.
Proof. intros Hx. unfold Word.u64, Word.wrap. apply Z.mod_small. exact Hx. Qed.

Lemma i32_small x : - 2 ^ 31 <= x < 2 ^ 31 -> Word.i32 x = x.
Proof.
  intros Hx. unfold Word.i32.
  change (2 ^ 31) with 2147483648 in *. change (2 ^ 32) with 4294967296.
  rewrite Z.mod_small by lia. lia.
Qed.

(** The accumulation pass: every cluster holds the sums and the number of
    its pixels. *)
Lemma sumClusters_sums (n : nat) (rgba : list Z) :
  bufferOk n rgba -> Z.of_nat n < 2 ^ 31 ->
  let cs := sumClusters (n * 4) rgba (replicate 16 Color.zero, replicate 16 0) in
  length (fst cs) = 16%nat /\ length (snd cs) = 16%nat /\
  forall k, (k < 16)%nat ->
    fst cs !!! k = Color.mk (clusterSum 0 rgba k n) (clusterSum 1 rgba k n)
                            (clusterSum 2 rgba k n) /\
    snd cs !!! k = clusterCount rgba k n.
Proof.
  intros Hok Hn. unfold sumClusters. rewrite for_step_4.
  apply (for_loop_invariant
    (fun m (cs : list Color.t * list Z) =>
       length (fst cs) = 16%nat /\ length (snd cs) = 16%nat /\
       forall k, (k < 16)%nat ->
         fst cs !!! k = Color.mk (clusterSum 0 rgba k m) (clusterSum 1 rgba k m)
                                 (clusterSum 2 rgba k m) /\
         snd cs !!! k = clusterCount rgba k m)).
  - lia.
  - split; [reflexivity|]. split; [reflexivity|]. intros k Hk. cbn [fst snd].
    rewrite !lookup_total_replicate_2 by exact Hk. split; reflexivity.
  - intros m [cs cnt] Hm (Hlc & Hln & Hinv). simpl in Hlc, Hln, Hinv. cbv zeta.
    pose proof Hok as (Hlen & Hbytes & Hidx).
    pose proof (Hidx m ltac:(lia)) as Hk0.
    pose proof (Hbytes (m * 4 + 3)%nat ltac:(lia)) as Hk0'.
    set (k0 := Z.to_nat (rgba !!! (m * 4 + 3)%nat)).
    assert (k0 < 16)%nat as Hk0lt by (unfold k0; lia).
    simpl fst. simpl snd. split; [|split].
    + rewrite length_insert. exact Hlc.
    + rewrite length_insert. exact Hln.
    + intros k Hk. destruct (Hinv k Hk) as [Hsum Hcnt].
      simpl clusterSum. simpl clusterCount. fold k0.
      destruct (Nat.eqb_spec k0 k) as [->|Hne].
      * rewrite !list_lookup_total_insert_eq by lia.
        rewrite Hsum, Hcnt. simpl Color.r. simpl Color.g. simpl Color.b.
        pose proof (clusterCount_range rgba k m) as Hc.
        pose proof (clusterSum_range 0 rgba k n m Hok ltac:(lia) ltac:(lia)) as H0.
        pose proof (clusterSum_range 1 rgba k n m Hok ltac:(lia) ltac:(lia)) as H1.
        pose proof (clusterSum_range 2 rgba k n m Hok ltac:(lia) ltac:(lia)) as H2.
        pose proof (Hbytes (m * 4 + 0)%nat ltac:(lia)) as B0.
        pose proof (Hbytes (m * 4 + 1)%nat ltac:(lia)) as B1.
        pose proof (Hbytes (m * 4 + 2)%nat ltac:(lia)) as B2.
        change (2 ^ 31) with 2147483648 in Hn.
        unfold Word.add64.
        rewrite !u64_small by (change (2 ^ 64) with 18446744073709551616; lia).
        rewrite i32_small by (change (2 ^ 31) with 2147483648; lia).
        split; reflexivity.
      * rewrite !list_lookup_total_insert_ne by exact Hne.
        rewrite Hsum, Hcnt, !Z.add_0_r. split; reflexivity.
Qed.

(** The averaging pass. *)
Lemma averageClusters_entries (centroids : list Color.t) (count : list Z) :
  length centroids = 16%nat ->
  let out := averageClusters (centroids, count) in
  length out = 16%nat /\
  forall k, (k < 16)%nat ->
    out !!! k =
      if count !!! k =? 0 then centroids !!! k
      else let c := centroids !!! k in
           let n := Word.u64 (count !!! k) in
           Color.mk (Color.r c / n) (Color.g c / n) (Color.b c / n).
Proof.
  intros Hlen out. subst out. unfold averageClusters, numColors. cbn [fst snd].
  assert (let out := for_loop 0 16
     (fun i centroids0 =>
        if negb (count !!! i =? 0) then
          let c := centroids0 !!! i in
          let n := Word.u64 (count !!! i) in
          <[i := Color.mk (Word.div64 (Color.r c) n) (Word.div64 (Color.g c) n)
                          (Word.div64 (Color.b c) n)]> centroids0
        else centroids0) centroids in
     length out = 16%nat /\
     (forall k, (k < 16)%nat ->
        out !!! k =
          if count !!! k =? 0 then centroids !!! k
          else let c := centroids !!! k in
               let n := Word.u64 (count !!! k) in
               Color.mk (Color.r c / n) (Color.g c / n) (Color.b c / n)) /\
     (forall k, (16 <= k)%nat -> out !!! k = centroids !!! k)) as H.
  { apply (for_loop_invariant
      (fun i (out : list Color.t) =>
         length out = 16%nat /\
         (forall k, (k < i)%nat ->
            out !!! k =
              if count !!! k =? 0 then centroids !!! k
              else let c := centroids !!! k in
                   let n := Word.u64 (count !!! k) in
                   Color.mk (Color.r c / n) (Color.g c / n) (Color.b c / n)) /\
         (forall k, (i <= k)%nat -> out !!! k = centroids !!! k))).
    - lia.
    - split; [exact Hlen|]. split; [intros k Hk; lia | reflexivity].
    - intros i out Hi (Hl & Hdone & Hrest).
      destruct (count !!! i =? 0) eqn:Hz; cbn [negb]; cbv zeta.
      + split; [exact Hl|]. split.
        * intros k Hk. destruct (decide (k = i)) as [->|Hne].
          -- rewrite Hz. apply Hrest. lia.
          -- apply Hdone. lia.
        * intros k Hk. apply Hrest. lia.
      + split; [rewrite length_insert; exact Hl|]. split.
        * intros k Hk. destruct (decide (k = i)) as [->|Hne].
          -- rewrite list_lookup_total_insert_eq by lia. rewrite Hz.
             rewrite (Hrest i) by lia. reflexivity.
          -- rewrite list_lookup_total_insert_ne by lia. apply Hdone. lia.
        * intros k Hk. rewrite list_lookup_total_insert_ne by lia.
          apply Hrest. lia. }
  cbv zeta in H. destruct H as (Hl & Hent & _). split; assumption.
Qed.

Lemma centroidsOf_length (n : nat) (rgba : list Z) :
  bufferOk n rgba -> Z.of_nat n < 2 ^ 31 -> length (centroidsOf n rgba) = 16%nat.
Proof.
  intros Hok Hn. unfold centroidsOf.
  destruct (sumClusters_sums n rgba Hok Hn) as (Hlc & _).
  destruct (sumClusters (n * 4) rgba _) as [cs cnt]. cbn [fst] in Hlc.
  exact (proj1 (averageClusters_entries cs cnt Hlc)).
Qed.

Lemma mean_range (s c : Z) : 0 < c -> 0 <= s <= 255 * c -> 0 <= s / c <= 255.
Proof.
  intros Hc Hs. split.
  - apply Z.div_pos; lia.
  - apply Z.div_le_upper_bound; lia.
Qed.

(** Every centroid is the mean of its cluster, or zero for an empty one. *)
Lemma centroidsOf_mean (n : nat) (rgba : list Z) (k : nat) :
  bufferOk n rgba -> Z.of_nat n < 2 ^ 31 -> (k < 16)%nat ->
  let c := centroidsOf n rgba !!! k in
  let count := clusterCount rgba k n in
  (count <> 0 ->
     c = Color.mk (clusterSum 0 rgba k n / count) (clusterSum 1 rgba k n / count)
                  (clusterSum 2 rgba k n / count)) /\
  (count = 0 -> c = Color.zero) /\
  Color_le_255 c.
Proof.
  intros Hok Hn Hk. cbv zeta. unfold centroidsOf.
  destruct (sumClusters_sums n rgba Hok Hn) as (Hlc & Hln & Hsums).
  destruct (sumClusters (n * 4) rgba _) as [cs cnt]. cbn [fst snd] in *.
  destruct (averageClusters_entries cs cnt Hlc) as (_ & Havg).
  rewrite (Havg k Hk). destruct (Hsums k Hk) as [-> ->].
  pose proof (clusterCount_range rgba k n) as Hc.
  pose proof (clusterSum_range 0 rgba k n n Hok ltac:(lia) ltac:(lia)) as H0.
  pose proof (clusterSum_range 1 rgba k n n Hok ltac:(lia) ltac:(lia)) as H1.
  pose proof (clusterSum_range 2 rgba k n n Hok ltac:(lia) ltac:(lia)) as H2.
  change (2 ^ 31) with 2147483648 in Hn.
  destruct (Z.eqb_spec (clusterCount rgba k n) 0) as [Hz|Hnz].
  - replace (clusterSum 0 rgba k n) with 0 by lia.
    replace (clusterSum 1 rgba k n) with 0 by lia.
    replace (clusterSum 2 rgba k n) with 0 by lia.
    split; [intros; contradiction|]. split; [reflexivity|].
    unfold Color_le_255. simpl. lia.
  - cbv zeta. cbn [Color.r Color.g Color.b].
    rewrite u64_small by (change (2 ^ 64) with 18446744073709551616; lia).
    split; [reflexivity|]. split; [intros; contradiction|].
    unfold Color_le_255. cbn [Color.r Color.g Color.b].
    repeat split; apply mean_range; lia.
Qed.

(** ** The reassignment pass *)

Lemma distances_entries (centroids : list Color.t) (rgba : list Z) (i : nat) :
  length (distances centroids rgba i) = 16%nat /\
  forall j, (j < 16)%nat ->
    distances centroids rgba i !!! j = distance2 (centroids !!! j) rgba i.
Proof.
  unfold distances, numColors.
  apply (for_loop_invariant
    (fun k (distance : list Z) =>
       length distance = 16%nat /\
       forall j, (j < k)%nat -> distance !!! j = distance2 (centroids !!! j) rgba i)).
  - lia.
  - split; [reflexivity | intros j Hj; lia].
  - intros k distance Hk [Hl Hdone]. split.
    + rewrite length_insert. exact Hl.
    + intros j Hj. destruct (decide (j = k)) as [->|Hne].
      * rewrite list_lookup_total_insert_eq by lia. reflexivity.
      * rewrite list_lookup_total_insert_ne by lia. apply Hdone. lia.
Qed.

(** The scan returns the first index at which the least distance occurs. *)
Lemma nearest_first_minimum (distance : list Z) :
  let bestK := fst (nearest distance) in
  (bestK < 16)%nat /\
  (forall j, (j < 16)%nat -> distance !!! bestK <= distance !!! j) /\
  (forall j, (j < bestK)%nat -> distance !!! bestK < distance !!! j).
Proof.
  unfold nearest, numColors.
  assert (let s := for_loop 1 16
            (fun j '(bestK, nearestDistance) =>
               if distance !!! j <? nearestDistance then (j, distance !!! j)
               else (bestK, nearestDistance)) (0%nat, distance !!! 0%nat) in
          (fst s < 16)%nat /\ snd s = distance !!! fst s /\
          (forall j, (j < 16)%nat -> snd s <= distance !!! j) /\
          (forall j, (j < fst s)%nat -> snd s < distance !!! j)) as H.
  { apply (for_loop_invariant
      (fun k (s : nat * Z) =>
         (fst s < k)%nat /\ snd s = distance !!! fst s /\
         (forall j, (j < k)%nat -> snd s <= distance !!! j) /\
         (forall j, (j < fst s)%nat -> snd s < distance !!! j))).
    - lia.
    - cbn [fst snd]. split; [lia|]. split; [reflexivity|]. split.
      + intros j Hj. replace j with 0%nat by lia. lia.
      + intros j Hj. lia.
    - intros k [bestK nd] Hk (Hlt & Hnd & Hmin & Hfirst). cbn [fst snd] in *.
      destruct (Z.ltb_spec (distance !!! k) nd) as [Hless|Hge]; cbn [fst snd].
      + split; [lia|]. split; [reflexivity|]. split.
        * intros j Hj. destruct (decide (j = k)) as [->|Hne]; [lia|].
          specialize (Hmin j ltac:(lia)). lia.
        * intros j Hj. specialize (Hmin j ltac:(lia)). lia.
      + split; [lia|]. split; [exact Hnd|]. split.
        * intros j Hj. destruct (decide (j = k)) as [->|Hne]; [lia|].
          apply Hmin. lia.
        * exact Hfirst. }
  cbv zeta in H. destruct H as (Hlt & Hnd & Hmin & Hfirst).
  cbv zeta. rewrite <- Hnd. split; [exact Hlt|]. split; assumption.
Qed.

Lemma distance2_same_channels (c : Color.t) (rgba rgba' : list Z) (i : nat) :
  rgba' !!! (i + 0)%nat = rgba !!! (i + 0)%nat ->
  rgba' !!! (i + 1)%nat = rgba !!! (i + 1)%nat ->
  rgba' !!! (i + 2)%nat = rgba !!! (i + 2)%nat ->
  distance2 c rgba' i = distance2 c rgba i.
Proof. intros H0 H1 H2. unfold distance2. rewrite H0, H1, H2. reflexivity. Qed.

Lemma distances_same_channels (centroids : list Color.t) (rgba rgba' : list Z) (i : nat) :
  rgba' !!! (i + 0)%nat = rgba !!! (i + 0)%nat ->
  rgba' !!! (i + 1)%nat = rgba !!! (i + 1)%nat ->
  rgba' !!! (i + 2)%nat = rgba !!! (i + 2)%nat ->
  distances centroids rgba' i = distances centroids rgba i.
Proof.
  intros H0 H1 H2. unfold distances. apply for_loop_ext. intros j distance.
  rewrite (distance2_same_channels _ rgba rgba' i H0 H1 H2). reflexivity.
Qed.

Lemma bestCluster_first_minimum (centroids : list Color.t) (rgba : list Z) (i : nat) :
  let bestK := bestCluster centroids rgba i in
  let d j := distance2 (centroids !!! j) rgba i in
  (bestK < 16)%nat /\
  (forall j, (j < 16)%nat -> d bestK <= d j) /\
  (forall j, (j < bestK)%nat -> d bestK < d j).
Proof.
  cbv zeta. unfold bestCluster.
  pose proof (nearest_first_minimum (distances centroids rgba i)) as H.
  cbv zeta in H. destruct H as (Hlt & Hmin & Hfirst).
  destruct (distances_entries centroids rgba i) as [_ Hd].
  set (bestK := fst (nearest (distances centroids rgba i))) in *.
  split; [exact Hlt|]. split.
  - intros j Hj. rewrite <- !Hd by lia. apply Hmin, Hj.
  - intros j Hj. rewrite <- !Hd by lia. apply Hfirst, Hj.
Qed.

Lemma assignPixels_buffer (n : nat) (centroids : list Color.t) (rgba : list Z) :
  length rgba = (n * 4)%nat ->
  let rgba' := fst (assignPixels (n * 4) centroids rgba) in
  length rgba' = (n * 4)%nat /\
  (forall p ch, (p < n)%nat -> (ch < 3)%nat ->
     rgba' !!! (p * 4 + ch)%nat = rgba !!! (p * 4 + ch)%nat) /\
  (forall p, (p < n)%nat ->
     rgba' !!! (p * 4 + 3)%nat = Z.of_nat (bestCluster centroids rgba (p * 4))) /\
  (snd (assignPixels (n * 4) centroids rgba) = false <->
   forall p, (p < n)%nat ->
     rgba !!! (p * 4 + 3)%nat = Z.of_nat (bestCluster centroids rgba (p * 4))).
Proof.
  intros Hlen. unfold assignPixels, bestCluster. rewrite for_step_4.
  assert (let s := for_loop 0 n
     (fun j '(rgba0, didChange) =>
        let bestK := fst (nearest (distances centroids rgba0 (j * 4))) in
        let didChange0 :=
          didChange || negb (rgba0 !!! (j * 4 + 3)%nat =? Z.of_nat bestK) in
        (<[(j * 4 + 3)%nat := Word.u8 (Z.of_nat bestK)]> rgba0, didChange0))
     (rgba, false) in
     length (fst s) = (n * 4)%nat /\
     (forall p ch, (p < n)%nat -> (ch < 3)%nat ->
        fst s !!! (p * 4 + ch)%nat = rgba !!! (p * 4 + ch)%nat) /\
     (forall p, (p < n)%nat ->
        fst s !!! (p * 4 + 3)%nat = Z.of_nat (fst (nearest (distances centroids rgba (p * 4))))) /\
     (forall p, (n <= p)%nat -> fst s !!! (p * 4 + 3)%nat = rgba !!! (p * 4 + 3)%nat) /\
     (snd s = false <->
      forall p, (p < n)%nat ->
        rgba !!! (p * 4 + 3)%nat = Z.of_nat (fst (nearest (distances centroids rgba (p * 4))))))
    as H.
  { apply (for_loop_invariant
      (fun m (s : list Z * bool) =>
         length (fst s) = (n * 4)%nat /\
         (forall p ch, (p < n)%nat -> (ch < 3)%nat ->
            fst s !!! (p * 4 + ch)%nat = rgba !!! (p * 4 + ch)%nat) /\
         (forall p, (p < m)%nat ->
            fst s !!! (p * 4 + 3)%nat = Z.of_nat (fst (nearest (distances centroids rgba (p * 4))))) /\
         (forall p, (m <= p)%nat ->
            fst s !!! (p * 4 + 3)%nat = rgba !!! (p * 4 + 3)%nat) /\
         (snd s = false <->
          forall p, (p < m)%nat ->
            rgba !!! (p * 4 + 3)%nat
            = Z.of_nat (fst (nearest (distances centroids rgba (p * 4))))))).
    - lia.
    - cbn [fst snd]. split; [exact Hlen|]. split; [reflexivity|].
      split; [intros p Hp; lia|]. split; [reflexivity|].
      split; [intros _ p Hp; lia | reflexivity].
    - intros m [rgba0 changed] Hm (Hl & Hcol & Hdone & Hrest & Hflag).
      cbn [fst snd] in *. cbv zeta. cbn [fst snd].
      assert (distances centroids rgba0 (m * 4) = distances centroids rgba (m * 4))
        as Hdist.
      { apply distances_same_channels.
        - apply (Hcol m 0%nat); lia.
        - apply (Hcol m 1%nat); lia.
        - apply (Hcol m 2%nat); lia. }
      rewrite Hdist, (Hrest m) by lia.
      pose proof (nearest_first_minimum (distances centroids rgba (m * 4))) as Hb.
      cbv zeta in Hb. destruct Hb as (Hb & _).
      split; [|split; [|split; [|split]]].
      + rewrite length_insert. exact Hl.
      + intros p ch Hp Hch. rewrite list_lookup_total_insert_ne by lia.
        apply Hcol; assumption.
      + intros p Hp. destruct (decide (p = m)) as [->|Hne].
        * rewrite list_lookup_total_insert_eq by lia. apply u8_small. lia.
        * rewrite list_lookup_total_insert_ne by lia. apply Hdone. lia.
      + intros p Hp. rewrite list_lookup_total_insert_ne by lia. apply Hrest. lia.
      + rewrite orb_false_iff, negb_false_iff, Z.eqb_eq, Hflag. split.
        * intros [Hbefore Hm'] p Hp. destruct (decide (p = m)) as [->|Hne];
            [exact Hm' | apply Hbefore; lia].
        * intros Hall. split; [intros p Hp; apply Hall; lia | apply Hall; lia]. }
  cbv zeta in H. destruct H as (Hl & Hcol & Hdone & _ & Hflag).
  cbv zeta. split; [exact Hl|]. split; [exact Hcol|]. split; assumption.
Qed.

(** ** Every iteration of the loop *)

Lemma posterize_seeded fuel random image4bit palette24bit rgbaIn numPixels :
  posterize fuel random image4bit palette24bit rgbaIn numPixels =
    match lloydLoop fuel (numPixels * 4) (seeded random rgbaIn numPixels) with
    | None => None
    | Some st =>
        let palette := createPalette (Lloyd.centroids st)
                                     (replicate numColors PaletteValue.black) in
        let image4bit := packPixels numPixels (Lloyd.rgba st) image4bit in
        let '(palette, image4bit) :=
          setDarkestColorToBlackAndIndex0 palette image4bit (numPixels / 2) in
        Some (image4bit, copyPalette palette palette24bit)
    end.
Proof. reflexivity. Qed.

Lemma seedClusters_ok (random : nat -> Z) (rgbaIn : list Z) (n : nat) :
  (n * 4 <= length rgbaIn)%nat ->
  Forall isByte rgbaIn ->
  (forall i, 0 <= random i <= 15) ->
  bufferOk n (seedClusters random (n * 4) (take (n * 4) rgbaIn)).
Proof.
  intros Hlen Hbytes Hrandom. unfold seedClusters. rewrite for_step_4.
  assert (let out := for_loop 0 n
            (fun j rgba0 =>
               <[(j * 4 + 3)%nat := Word.u8 (random ((j * 4) / 4)%nat)]> rgba0)
            (take (n * 4) rgbaIn) in
          length out = (n * 4)%nat /\
          (forall j, (j < n * 4)%nat -> 0 <= out !!! j <= 255) /\
          (forall p, (p < n)%nat -> out !!! (p * 4 + 3)%nat <= 15)) as H.
  { apply (for_loop_invariant
      (fun m (out : list Z) =>
         length out = (n * 4)%nat /\
         (forall j, (j < n * 4)%nat -> 0 <= out !!! j <= 255) /\
         (forall p, (p < m)%nat -> out !!! (p * 4 + 3)%nat <= 15))).
    - lia.
    - split; [rewrite length_take; lia|]. split; [|intros p Hp; lia].
      intros j Hj. rewrite lookup_total_take_lt by exact Hj.
      apply (Forall_lookup_total_1 isByte); [exact Hbytes | lia].
    - intros m out Hm (Hl & Hb & Hdone).
      assert (Word.u8 (random ((m * 4) / 4)%nat) = random ((m * 4) / 4)%nat) as Hu8
        by (apply u8_small; pose proof (Hrandom ((m * 4) / 4)%nat); lia).
      pose proof (Hrandom ((m * 4) / 4)%nat) as Hr.
      split; [|split].
      + rewrite length_insert. exact Hl.
      + intros j Hj. destruct (decide (j = m * 4 + 3)%nat) as [->|Hne].
        * rewrite list_lookup_total_insert_eq by lia. lia.
        * rewrite list_lookup_total_insert_ne by lia. apply Hb, Hj.
      + intros p Hp. destruct (decide (p = m)) as [->|Hne].
        * rewrite list_lookup_total_insert_eq by lia. lia.
        * rewrite list_lookup_total_insert_ne by lia. apply Hdone. lia. }
  exact H.
Qed.

Lemma seeded_ok (random : nat -> Z) (rgbaIn : list Z) (n : nat) :
  (n * 4 <= length rgbaIn)%nat ->
  Forall isByte rgbaIn ->
  (forall i, 0 <= random i <= 15) ->
  stateOk n (seeded random rgbaIn n).
Proof.
  intros Hlen Hbytes Hrandom. split; [|split; reflexivity].
  apply seedClusters_ok; assumption.
Qed.

(** One execution of the loop body, pass by pass. *)
Lemma lloydBody_passes (n : nat) (st : Lloyd.t) :
  length (Lloyd.centroids st) = 16%nat ->
  length (Lloyd.numPixelsInCluster st) = 16%nat ->
  Lloyd.centroids (lloydBody (n * 4) st) = centroidsOf n (Lloyd.rgba st) /\
  Lloyd.numPixelsInCluster (lloydBody (n * 4) st) =
    snd (sumClusters (n * 4) (Lloyd.rgba st) (replicate 16 Color.zero, replicate 16 0)) /\
  Lloyd.rgba (lloydBody (n * 4) st) =
    fst (assignPixels (n * 4) (centroidsOf n (Lloyd.rgba st)) (Lloyd.rgba st)).
Proof.
  intros Hc Hn. unfold lloydBody, centroidsOf.
  rewrite (resetClusters_zero _ _ Hc Hn).
  destruct (assignPixels _ _ _) as [rgba' changed]. repeat split; reflexivity.
Qed.

Lemma lloydBody_ok (n : nat) (st : Lloyd.t) :
  Z.of_nat n < 2 ^ 31 -> stateOk n st -> stateOk n (lloydBody (n * 4) st).
Proof.
  intros Hn (Hbuf & Hc & Hcnt). unfold stateOk.
  destruct (lloydBody_passes n st Hc Hcnt) as (-> & -> & ->).
  pose proof Hbuf as (Hlen & Hbytes & Hidx).
  destruct (assignPixels_buffer n (centroidsOf n (Lloyd.rgba st)) (Lloyd.rgba st) Hlen)
    as (Hl' & Hcol & Hbest & _).
  destruct (sumClusters_sums n (Lloyd.rgba st) Hbuf Hn) as (Hlc & Hln & _).
  assert (forall p, (p < n)%nat ->
            0 <= fst (assignPixels (n * 4) (centroidsOf n (Lloyd.rgba st)) (Lloyd.rgba st))
                   !!! (p * 4 + 3)%nat <= 15) as Hidx'.
  { intros p Hp. rewrite (Hbest p Hp).
    pose proof (bestCluster_first_minimum
                  (centroidsOf n (Lloyd.rgba st)) (Lloyd.rgba st) (p * 4))
      as (Hb & _).
    lia. }
  split; [split; [exact Hl'|split]|split].
  - intros j Hj. pose proof (Nat.div_mod_eq j 4) as Hdm.
    pose proof (Nat.mod_upper_bound j 4 ltac:(lia)) as Hmod.
    replace j with ((j / 4) * 4 + j mod 4)%nat by lia.
    destruct (decide (j mod 4 = 3)%nat) as [->|Hne].
    + pose proof (Hidx' (j / 4)%nat ltac:(lia)). lia.
    + rewrite Hcol by lia. apply Hbytes. lia.
  - intros p Hp. apply Hidx', Hp.
  - apply centroidsOf_length; assumption.
  - exact Hln.
Qed.

Lemma lloydRuns_ok (random : nat -> Z) (rgbaIn : list Z) (n m : nat) :
  (n * 4 <= length rgbaIn)%nat ->
  Forall isByte rgbaIn ->
  (forall i, 0 <= random i <= 15) ->
  Z.of_nat n < 2 ^ 31 ->
  stateOk n (lloydRuns (n * 4) (seeded random rgbaIn n) m).
Proof.
  intros Hlen Hbytes Hrandom Hn. induction m as [|m IH].
  - apply seeded_ok; assumption.
  - unfold lloydRuns in *. simpl. apply lloydBody_ok; assumption.
Qed.

(** ** The number of iterations *)

Lemma bounded_counterexample (P : nat -> Prop) (n : nat) :
  (forall p, {P p} + {~ P p}) ->
  ~ (forall p, (p < n)%nat -> P p) -> exists p, (p < n)%nat /\ ~ P p.
Proof.
  intros Hdec. induction n as [|n IH]; intros Hnot.
  - exfalso. apply Hnot. intros p Hp. lia.
  - destruct (Hdec n) as [Hn|Hn].
    + destruct IH as (p & Hp & HP).
      * intros Hall. apply Hnot. intros p Hp.
        destruct (decide (p = n)) as [->|Hne]; [exact Hn | apply Hall; lia].
      * exists p. split; [lia | exact HP].
    + exists n. split; [lia | exact Hn].
Qed.

Lemma seedClusters_length (random : nat -> Z) (rgba : list Z) (n : nat) :
  length (seedClusters random (n * 4) rgba) = length rgba.
Proof.
  unfold seedClusters. rewrite for_step_4.
  apply (for_loop_invariant (fun _ (out : list Z) => length out = length rgba)).
  - lia.
  - reflexivity.
  - intros m out _ Hl. rewrite length_insert. exact Hl.
Qed.

(** The flag [didChange] after one execution of the body says whether the
    cluster of some pixel has changed. *)
Lemma lloydBody_didChange (n : nat) (st : Lloyd.t) :
  length (Lloyd.rgba st) = (n * 4)%nat ->
  length (Lloyd.rgba (lloydBody (n * 4) st)) = (n * 4)%nat /\
  (Lloyd.didChange (lloydBody (n * 4) st) = true <->
   assignmentChanged n st (lloydBody (n * 4) st)).
Proof.
  intros Hlen. unfold assignmentChanged, lloydBody.
  match goal with
  | |- context [assignPixels (n * 4) ?cs (Lloyd.rgba st)] =>
      pose proof (assignPixels_buffer n cs (Lloyd.rgba st) Hlen) as H;
      destruct (assignPixels (n * 4) cs (Lloyd.rgba st)) as [rgba' changed];
      set (best p := bestCluster cs (Lloyd.rgba st) (p * 4)) in *
  end.
  cbv zeta in H. cbn [fst snd] in H. destruct H as (Hl & _ & Hbest & Hflag).
  cbn [Lloyd.rgba Lloyd.didChange]. split; [exact Hl|]. split.
  - intros Hchanged.
    destruct (bounded_counterexample
                (fun p => Lloyd.rgba st !!! (p * 4 + 3)%nat = Z.of_nat (best p)) n)
      as (p & Hp & Hne).
    + intros p. apply Z.eq_dec.
    + intros Hall. apply Hflag in Hall. rewrite Hall in Hchanged. discriminate.
    + exists p. split; [exact Hp|]. rewrite (Hbest p Hp). intros Heq. apply Hne. symmetry. exact Heq.
  - intros (p & Hp & Hne). destruct changed; [reflexivity|]. exfalso.
    apply Hne. rewrite (Hbest p Hp). symmetry. apply Hflag; [reflexivity | exact Hp].
Qed.

Lemma lloydRuns_length (n : nat) (st : Lloyd.t) (m : nat) :
  length (Lloyd.rgba st) = (n * 4)%nat ->
  length (Lloyd.rgba (lloydRuns (n * 4) st m)) = (n * 4)%nat.
Proof.
  intros Hlen. induction m as [|m IH]; [exact Hlen|].
  unfold lloydRuns in *. simpl. apply lloydBody_didChange, IH.
Qed.

(** C5: the refinement loop of [posterize] executes its body [k + 1] times
    for some [k < 24], at most 24 times, and returns (any fuel of at least 24
    gives this result).  Every execution before the last one moved some pixel
    to another cluster; the last one moved no pixel, or it was the 24th: the
    loop exits as soon as an iteration changes no assignment or the count
    reaches 24. *)
Theorem lloydLoop_at_most_24_iterations
    (fuel : nat) (random : nat -> Z) (rgbaIn : list Z) (n : nat) :
  (n * 4 <= length rgbaIn)%nat -> (24 <= fuel)%nat ->
  let runs := lloydRuns (n * 4) (seeded random rgbaIn n) in
  exists k, (k < 24)%nat /\
    lloydLoop fuel (n * 4) (seeded random rgbaIn n) = Some (runs (S k)) /\
    Lloyd.iterations (runs (S k)) = S k /\
    (forall m, (m < k)%nat -> assignmentChanged n (runs m) (runs (S m))) /\
    (~ assignmentChanged n (runs k) (runs (S k)) \/ S k = 24%nat).
Proof.
  intros Hlen Hfuel runs.
  assert (length (Lloyd.rgba (seeded random rgbaIn n)) = (n * 4)%nat) as Hl0.
  { cbn [seeded Lloyd.rgba]. rewrite seedClusters_length, length_take. lia. }
  destruct (lloydLoop_runs (n * 4) fuel (seeded random rgbaIn n))
    as (k & Hk & Hrun & Hbefore & Hlast); [lia | unfold maxIterations; cbn; lia |].
  fold runs in Hrun, Hbefore, Hlast.
  assert (forall m, Lloyd.iterations (runs m) = m) as Hit.
  { intros m. unfold runs. rewrite lloydRuns_iterations. cbn. lia. }
  assert (forall m, Lloyd.didChange (runs (S m)) = true <->
                    assignmentChanged n (runs m) (runs (S m))) as Hflag.
  { intros m. apply (lloydBody_didChange n (runs m)).
    apply lloydRuns_length, Hl0. }
  destruct k as [|k]; [lia|]. exists k.
  assert (k < 24)%nat as Hk24.
  { destruct (le_lt_dec 24 k) as [Hge|]; [|assumption].
    destruct (Hbefore 24%nat) as [_ Hlt]; [lia|].
    rewrite Hit in Hlt. unfold maxIterations in Hlt. lia. }
  split; [exact Hk24|]. split; [exact Hrun|]. split; [apply Hit|]. split.
  - intros m Hm. apply Hflag. apply Hbefore. lia.
  - destruct Hlast as [Hl|Hl].
    + left. intros Hc. apply Hflag in Hc. rewrite Hc in Hl. discriminate.
    + right. rewrite Hit in Hl. unfold maxIterations in Hl. lia.
Qed.

Lemma lloydLoop_at_most_24_iterations_witness :
  let runs := lloydRuns (2 * 4) (seeded (fun _ => 3) [0; 0; 0; 255; 255; 255; 255; 255] 2) in
  exists k, (k < 24)%nat /\
    lloydLoop 24 (2 * 4) (seeded (fun _ => 3) [0; 0; 0; 255; 255; 255; 255; 255] 2)
      = Some (runs (S k)) /\
    Lloyd.iterations (runs (S k)) = S k /\
    (forall m, (m < k)%nat -> assignmentChanged 2 (runs m) (runs (S m))) /\
    (~ assignmentChanged 2 (runs k) (runs (S k)) \/ S k = 24%nat).
Proof.
  apply (lloydLoop_at_most_24_iterations 24 (fun _ => 3)
           [0; 0; 0; 255; 255; 255; 255; 255] 2).
  - simpl. lia.
  - lia.
Defined.

(** ** The centroids after averaging *)

(** C7: in every iteration of the loop that [posterize] runs (the [m+1]-th,
    for any [m]), after the averaging step each of the 16 centroids is the
    integer-division mean of the channel bytes of the pixels of its cluster
    when the cluster is not empty and (0,0,0) when it is empty; every channel
    is at most 255, so that the narrowing to 8 bits in the palette keeps its
    value. *)
Theorem centroids_are_means_at_most_255
    (random : nat -> Z) (rgbaIn : list Z) (n m : nat) :
  (n * 4 <= length rgbaIn)%nat ->
  Forall isByte rgbaIn ->
  (forall i, 0 <= random i <= 15) ->
  Z.of_nat n < 2 ^ 31 ->
  let before := lloydRuns (n * 4) (seeded random rgbaIn n) m in
  let after := lloydBody (n * 4) before in
  forall k, (k < 16)%nat ->
    let c := Lloyd.centroids after !!! k in
    let count := clusterCount (Lloyd.rgba before) k n in
    (count <> 0 ->
       c = Color.mk (clusterSum 0 (Lloyd.rgba before) k n / count)
                    (clusterSum 1 (Lloyd.rgba before) k n / count)
                    (clusterSum 2 (Lloyd.rgba before) k n / count)) /\
    (count = 0 -> c = Color.zero) /\
    Color_le_255 c /\
    createPalette (Lloyd.centroids after) (replicate numColors PaletteValue.black) !!! k
      = PaletteValue.mk (Color.r c) (Color.g c) (Color.b c).
Proof.
  intros Hlen Hbytes Hrandom Hn before after k Hk.
  pose proof (lloydRuns_ok random rgbaIn n m Hlen Hbytes Hrandom Hn) as (Hbuf & Hc & Hcnt).
  fold before in Hbuf, Hc, Hcnt.
  destruct (lloydBody_passes n before Hc Hcnt) as (Hcs & _ & _).
  subst after. rewrite Hcs.
  destruct (centroidsOf_mean n (Lloyd.rgba before) k Hbuf Hn Hk) as (Hmean & Hzero & Hle).
  split; [exact Hmean|]. split; [exact Hzero|]. split; [exact Hle|].
  destruct (createPalette_entries (centroidsOf n (Lloyd.rgba before))
              (replicate numColors PaletteValue.black) eq_refl) as [_ Hpal].
  rewrite (Hpal k Hk). destruct Hle as (Hr & Hg & Hb).
  rewrite !u8_small by assumption. reflexivity.
Qed.

Lemma centroids_are_means_at_most_255_witness :
  let rgbaIn := [200; 100; 50; 0; 100; 50; 25; 0] in
  let before := lloydRuns (2 * 4) (seeded (fun _ => 3) rgbaIn 2) 0 in
  let after := lloydBody (2 * 4) before in
  let c := Lloyd.centroids after !!! 3%nat in
  let count := clusterCount (Lloyd.rgba before) 3 2 in
  (count <> 0 ->
     c = Color.mk (clusterSum 0 (Lloyd.rgba before) 3 2 / count)
                  (clusterSum 1 (Lloyd.rgba before) 3 2 / count)
                  (clusterSum 2 (Lloyd.rgba before) 3 2 / count)) /\
  (count = 0 -> c = Color.zero) /\
  Color_le_255 c /\
  createPalette (Lloyd.centroids after) (replicate numColors PaletteValue.black) !!! 3%nat
    = PaletteValue.mk (Color.r c) (Color.g c) (Color.b c).
Proof.
  intros rgbaIn.
  apply (centroids_are_means_at_most_255 (fun _ => 3) rgbaIn 2 0).
  - simpl. lia.
  - unfold rgbaIn. repeat (apply Forall_cons; split; [unfold isByte; lia|]).
    apply Forall_nil. exact I.
  - intros i. lia.
  - reflexivity.
  - lia.
Defined.

(** ** The cluster given to a pixel *)

(** C6: in every reassignment pass that [posterize] runs (that of the
    [m+1]-th iteration, for any [m]), every pixel [p] is given the smallest
    cluster index [j] in [0,15] whose centroid is at the least squared
    Euclidean RGB distance from the pixel: no centroid is nearer, and every
    centroid of a smaller index is strictly farther. *)
Theorem reassignment_picks_first_nearest
    (random : nat -> Z) (rgbaIn : list Z) (n m : nat) :
  (n * 4 <= length rgbaIn)%nat ->
  Forall isByte rgbaIn ->
  (forall i, 0 <= random i <= 15) ->
  Z.of_nat n < 2 ^ 31 ->
  let before := lloydRuns (n * 4) (seeded random rgbaIn n) m in
  let after := lloydBody (n * 4) before in
  forall p, (p < n)%nat ->
    let j := Z.to_nat (Lloyd.rgba after !!! (p * 4 + 3)%nat) in
    let d j' := euclid2 (Lloyd.centroids after !!! j')
                        (Lloyd.rgba before !!! (p * 4 + 0)%nat)
                        (Lloyd.rgba before !!! (p * 4 + 1)%nat)
                        (Lloyd.rgba before !!! (p * 4 + 2)%nat) in
    (j < 16)%nat /\
    (forall j', (j' < 16)%nat -> d j <= d j') /\
    (forall j', (j' < j)%nat -> d j < d j').
Proof.
  intros Hlen Hbytes Hrandom Hn before after p Hp.
  pose proof (lloydRuns_ok random rgbaIn n m Hlen Hbytes Hrandom Hn) as (Hbuf & Hc & Hcnt).
  fold before in Hbuf, Hc, Hcnt.
  destruct (lloydBody_passes n before Hc Hcnt) as (Hcs & _ & Hrgba).
  subst after. rewrite Hcs, Hrgba.
  pose proof Hbuf as (Hl & Hb & _).
  destruct (assignPixels_buffer n (centroidsOf n (Lloyd.rgba before)) (Lloyd.rgba before) Hl)
    as (_ & _ & Hbest & _).
  rewrite (Hbest p Hp), Nat2Z.id.
  pose proof (bestCluster_first_minimum (centroidsOf n (Lloyd.rgba before))
                (Lloyd.rgba before) (p * 4)) as Hmin.
  cbv zeta in Hmin. destruct Hmin as (Hlt & Hmin & Hfirst).
  assert (forall j', (j' < 16)%nat ->
            distance2 (centroidsOf n (Lloyd.rgba before) !!! j') (Lloyd.rgba before) (p * 4)
            = euclid2 (centroidsOf n (Lloyd.rgba before) !!! j')
                      (Lloyd.rgba before !!! (p * 4 + 0)%nat)
                      (Lloyd.rgba before !!! (p * 4 + 1)%nat)
                      (Lloyd.rgba before !!! (p * 4 + 2)%nat)) as Hexact.
  { intros j' Hj'. unfold distance2. apply wrapped_squares_exact.
    - apply (centroidsOf_mean n (Lloyd.rgba before) j' Hbuf Hn Hj').
    - apply Hb. lia.
    - apply Hb. lia.
    - apply Hb. lia. }
  cbv zeta. split; [exact Hlt|]. split.
  - intros j' Hj'. rewrite <- !Hexact by lia. apply Hmin, Hj'.
  - intros j' Hj'. rewrite <- !Hexact by lia. apply Hfirst, Hj'.
Qed.

Lemma reassignment_picks_first_nearest_witness :
  let rgbaIn := [200; 100; 50; 0; 100; 50; 25; 0] in
  let before := lloydRuns (2 * 4) (seeded (fun _ => 3) rgbaIn 2) 1 in
  let after := lloydBody (2 * 4) before in
  let j := Z.to_nat (Lloyd.rgba after !!! (1 * 4 + 3)%nat) in
  let d j' := euclid2 (Lloyd.centroids after !!! j')
                      (Lloyd.rgba before !!! (1 * 4 + 0)%nat)
                      (Lloyd.rgba before !!! (1 * 4 + 1)%nat)
                      (Lloyd.rgba before !!! (1 * 4 + 2)%nat) in
  (j < 16)%nat /\
  (forall j', (j' < 16)%nat -> d j <= d j') /\
  (forall j', (j' < j)%nat -> d j < d j').
Proof.
  intros rgbaIn.
  apply (reassignment_picks_first_nearest (fun _ => 3) rgbaIn 2 1).
  - simpl. lia.
  - unfold rgbaIn. repeat (apply Forall_cons; split; [unfold isByte; lia|]).
    apply Forall_nil. exact I.
  - intros i. lia.
  - reflexivity.
  - lia.
Defined.

(** ** The remap of the packed image inside [posterize] *)

(** C2, evaluated on the code.  In both runs the darkest palette entry is
    found at index [d = 1] and pixel 0 has nibble 0 before the normalizer is
    called; the swap would make it [swapNibble 1 0 = 1], yet [posterize]
    returns it as 0, and entry 0 of the returned palette is black while the
    colour of the pixel sits at entry 1.
    - One pixel (odd count): the normalizer is passed [numPixels / 2 = 0]
      bytes, so the byte of the last pixel is not remapped.
    - Two pixels, in clusters 0 and 2: their byte [0x02] is remapped, but the
      table maps it to itself. *)
Theorem posterize_leaves_nibble_unswapped :
  (let rgbaIn := [200; 200; 200; 255] in
   exists st image' palette',
     lloydLoop 24 (1 * 4) (seeded (fun _ => 0) rgbaIn 1) = Some st /\
     snd (findDarkest (createPalette (Lloyd.centroids st)
                         (replicate numColors PaletteValue.black))) = 1%nat /\
     nibbleOf (packPixels 1 (Lloyd.rgba st) [0x00]) 0 = 0 /\
     posterize 24 (fun _ => 0) [0x00] (replicate 48 0) rgbaIn 1
       = Some (image', palette') /\
     nibbleOf image' 0 = 0 /\ swapNibble 1 0 = 1 /\
     paletteEntry palette' 0 = PaletteValue.black /\
     paletteEntry palette' 1 = PaletteValue.mk 200 200 200) /\
  (let rgbaIn := [200; 200; 200; 255; 10; 20; 30; 255] in
   let random := fun i : nat => 2 * Z.of_nat i in
   exists st image' palette',
     lloydLoop 24 (2 * 4) (seeded random rgbaIn 2) = Some st /\
     snd (findDarkest (createPalette (Lloyd.centroids st)
                         (replicate numColors PaletteValue.black))) = 1%nat /\
     nibbleOf (packPixels 2 (Lloyd.rgba st) [0x00]) 0 = 0 /\
     posterize 24 random [0x00] (replicate 48 0) rgbaIn 2
       = Some (image', palette') /\
     nibbleOf image' 0 = 0 /\ swapNibble 1 0 = 1 /\
     paletteEntry palette' 0 = PaletteValue.black /\
     paletteEntry palette' 1 = PaletteValue.mk 200 200 200).
Proof.
  split; cbv zeta; eexists _, _, _;
    repeat (split; [vm_compute; reflexivity|]); vm_compute; reflexivity.
Qed.

(** * Further properties of the code *)

Lemma shr_1_nonneg mrs : 0 <= shr_m mrs -> 0 <= shr_m (shr_1 mrs).
Proof.
  destruct mrs as [m r s]. simpl. intros Hm.
  destruct m as [|p|p]; [simpl; lia| |lia].
  destruct p; simpl; lia.
Qed.

Lemma iter_shr_1_nonneg p : forall mrs,
  0 <= shr_m mrs -> 0 <= shr_m (SpecFloat.iter_pos shr_1 p mrs).
Proof.
  induction p as [p IH|p IH|]; intros mrs Hm; simpl.
  - apply IH, IH, shr_1_nonneg, Hm.
  - apply IH, IH, Hm.
  - apply shr_1_nonneg, Hm.
Qed.

Lemma shr_fexp_nonneg m e l :
  0 <= m -> 0 <= shr_m (fst (shr_fexp Float32.prec Float32.emax m e l)).
Proof.
  intros Hm. unfold shr_fexp, shr.
  assert (0 <= shr_m (shr_record_of_loc m l)) as H0
    by (destruct l as [|[]]; simpl; exact Hm).
  destruct (fexp _ _ _ - e) as [|p|p]; simpl; try exact H0.
  apply iter_shr_1_nonneg, H0.
Qed.

Lemma round_nearest_even_nonneg m l : 0 <= m -> 0 <= round_nearest_even m l.
Proof.
  intros Hm. destruct l as [|[]]; simpl; try lia.
  destruct (Z.even m); lia.
Qed.

Lemma binary_round_aux_ordered mx ex lx :
  0 <= mx -> notNegativeNumber (binary_round_aux Float32.prec Float32.emax false mx ex lx) = true.
Proof.
  intros Hm. unfold binary_round_aux.
  pose proof (shr_fexp_nonneg mx ex lx Hm) as H1.
  destruct (shr_fexp Float32.prec Float32.emax mx ex lx) as [mrs' e']. simpl in H1.
  pose proof (shr_fexp_nonneg _ e' loc_Exact
                (round_nearest_even_nonneg _ (loc_of_shr_record mrs') H1)) as H2.
  destruct (shr_fexp Float32.prec Float32.emax _ e' loc_Exact) as [mrs'' e''].
  simpl in H2. destruct (shr_m mrs''); [reflexivity| |lia].
  destruct (Z.leb e'' _); reflexivity.
Qed.

Lemma add_ordered x y :
  notNegativeNumber x = true -> notNegativeNumber y = true -> notNegativeNumber (Float32.add x y) = true.
Proof.
  unfold Float32.add.
  destruct x as [sx|sx| |sx mx ex], y as [sy|sy| |sy my ey];
    try destruct sx; try destruct sy; simpl; intros Hx Hy;
    try reflexivity; try discriminate.
  unfold binary_round. destruct (shl_align _ _ _) as [mz ez].
  apply binary_round_aux_ordered. lia.
Qed.

Lemma lumaTerm_table :
  forallb (fun x : nat =>
             notNegativeNumber (lumaTerm Float32.c0_299 (Z.of_nat x)) &&
             notNegativeNumber (lumaTerm Float32.c0_587 (Z.of_nat x)) &&
             notNegativeNumber (lumaTerm Float32.c0_114 (Z.of_nat x))) (seq 0 256) = true.
Proof. vm_compute. reflexivity. Qed.

Lemma luminance_ordered (p : PaletteValue.t) :
  PaletteValue.valid p -> notNegativeNumber (PaletteValue.luminance p) = true.
Proof.
  intros (Hr & Hg & Hb). pose proof lumaTerm_table as H.
  rewrite forallb_forall in H.
  assert (forall x, 0 <= x <= 255 ->
            notNegativeNumber (lumaTerm Float32.c0_299 x) = true /\
            notNegativeNumber (lumaTerm Float32.c0_587 x) = true /\
            notNegativeNumber (lumaTerm Float32.c0_114 x) = true) as Ht.
  { intros x Hx. specialize (H (Z.to_nat x)).
    rewrite Z2Nat.id in H by lia.
    assert (In (Z.to_nat x) (seq 0 256)) as Hin by (apply in_seq; lia).
    apply H in Hin. rewrite !andb_true_iff in Hin. tauto. }
  unfold PaletteValue.luminance.
  apply add_ordered; [apply add_ordered|].
  - apply (Ht _ Hr).
  - apply (Ht _ Hg).
  - apply (Ht _ Hb).
Qed.

(** The comparison [<] on floats. *)
Lemma ltb_irrefl x : Float32.ltb x x = false.
Proof.
  unfold Float32.ltb, SFltb. destruct x as [s|s| |s m e]; simpl; try reflexivity.
  - destruct s; reflexivity.
  - rewrite Z.compare_refl, Pos.compare_cont_refl. destruct s; reflexivity.
Qed.

Ltac compare_cases :=
  repeat match goal with
  | H : context [Z.compare ?a ?b] |- _ => destruct (Z.compare_spec a b)
  | |- context [Z.compare ?a ?b] => destruct (Z.compare_spec a b)
  | H : context [Pos.compare_cont Eq ?a ?b] |- _ =>
      change (Pos.compare_cont Eq a b) with (Pos.compare a b) in H;
      destruct (Pos.compare_spec a b)
  | |- context [Pos.compare_cont Eq ?a ?b] =>
      change (Pos.compare_cont Eq a b) with (Pos.compare a b);
      destruct (Pos.compare_spec a b)
  end.

Lemma ltb_trans x y z :
  Float32.ltb x y = true -> Float32.ltb y z = true -> Float32.ltb x z = true.
Proof.
  unfold Float32.ltb, SFltb.
  destruct x as [sx|sx| |sx mx ex], y as [sy|sy| |sy my ey], z as [sz|sz| |sz mz ez];
    try destruct sx; try destruct sy; try destruct sz; simpl;
    intros Hxy Hyz; try discriminate; try reflexivity;
    compare_cases; simpl in *; try discriminate; try reflexivity; subst; lia.
Qed.

(** [a < b] and not [c < b], for a number [c], give [a < c]. *)
Lemma ltb_below x y z :
  notNegativeNumber z = true ->
  Float32.ltb x y = true -> Float32.ltb z y = false -> Float32.ltb x z = true.
Proof.
  unfold Float32.ltb, SFltb.
  destruct x as [sx|sx| |sx mx ex], y as [sy|sy| |sy my ey], z as [sz|sz| |sz mz ez];
    try destruct sx; try destruct sy; try destruct sz; simpl;
    intros Hz Hxy Hzy; try discriminate; try reflexivity;
    compare_cases; simpl in *; try discriminate; try reflexivity; subst; lia.
Qed.

(** ** The scan for the darkest entry *)

Lemma findDarkest_scan (palette : list PaletteValue.t) :
  Forall PaletteValue.valid palette ->
  let dl := fst (findDarkest palette) in
  let d := snd (findDarkest palette) in
  (forall i, (i < 16)%nat -> Float32.ltb (luma palette i) dl = false) /\
  ((dl = Float32.c1 /\ d = 0%nat) \/
   ((d < 16)%nat /\ dl = luma palette d /\ Float32.ltb dl Float32.c1 = true /\
    forall i, (i < d)%nat -> Float32.ltb (luma palette d) (luma palette i) = true)).
Proof.
  intros Hall. unfold findDarkest.
  apply (for_loop_invariant
    (fun k (s : Float32.t * nat) =>
       (forall i, (i < k)%nat -> Float32.ltb (luma palette i) (fst s) = false) /\
       ((fst s = Float32.c1 /\ snd s = 0%nat) \/
        ((snd s < k)%nat /\ fst s = luma palette (snd s) /\
         Float32.ltb (fst s) Float32.c1 = true /\
         forall i, (i < snd s)%nat ->
           Float32.ltb (luma palette (snd s)) (luma palette i) = true)))).
  - lia.
  - split; [intros i Hi; lia|]. left. split; reflexivity.
  - intros k [dl d] Hk [Hmin Hcase]. cbn [fst snd] in *. cbv zeta.
    fold (luma palette k).
    destruct (Float32.ltb (luma palette k) dl) eqn:Hlt; cbn [fst snd].
    + split.
      * intros i Hi. destruct (decide (i = k)) as [->|Hne]; [apply ltb_irrefl|].
        destruct (Float32.ltb (luma palette i) (luma palette k)) eqn:Hik;
          [|reflexivity].
        rewrite <- (Hmin i ltac:(lia)). symmetry.
        apply (ltb_trans _ _ _ Hik Hlt).
      * right. split; [lia|]. split; [reflexivity|]. split.
        -- destruct Hcase as [[-> _]|(_ & _ & Hone & _)]; [exact Hlt|].
           apply (ltb_trans _ _ _ Hlt Hone).
        -- intros i Hi. apply (ltb_below _ dl).
           ++ apply luminance_ordered, valid_lookup_total, Hall.
           ++ exact Hlt.
           ++ apply Hmin. lia.
    + split.
      * intros i Hi. destruct (decide (i = k)) as [->|Hne]; [exact Hlt|].
        apply Hmin. lia.
      * destruct Hcase as [Hdef|(Hd & Hrest)]; [left; exact Hdef|].
        right. split; [lia | exact Hrest].
Qed.

(** X1: the scan for the darkest colour returns an index [d] below 16.  When
    some entry has a luminance below 1.0, no entry has a luminance below
    that of entry [d] and every entry before [d] has a luminance strictly
    above it: [d] is the first entry of least luminance.  When no entry has
    a luminance below 1.0, [d] is 0. *)
Theorem findDarkest_first_minimum (palette : list PaletteValue.t) :
  Forall PaletteValue.valid palette ->
  let d := snd (findDarkest palette) in
  (d < 16)%nat /\
  ((exists i, (i < 16)%nat /\ Float32.ltb (luma palette i) Float32.c1 = true) ->
   (forall i, (i < 16)%nat -> Float32.ltb (luma palette i) (luma palette d) = false) /\
   (forall i, (i < d)%nat -> Float32.ltb (luma palette d) (luma palette i) = true)) /\
  ((forall i, (i < 16)%nat -> Float32.ltb (luma palette i) Float32.c1 = false) ->
   d = 0%nat).
Proof.
  intros Hall d. subst d.
  destruct (findDarkest_scan palette Hall) as [Hmin Hcase]. cbv zeta in Hmin, Hcase.
  split; [apply findDarkest_index|]. split.
  - intros (i & Hi & Hlt).
    destruct Hcase as [[Hdl _]|(_ & Hdl & _ & Hfirst)].
    + rewrite Hdl in Hmin. rewrite (Hmin i Hi) in Hlt. discriminate.
    + rewrite Hdl in Hmin. split; [exact Hmin | exact Hfirst].
  - intros Hnone. destruct Hcase as [[_ Hd]|(Hd & Hdl & Hone & _)]; [exact Hd|].
    rewrite Hdl in Hone. unfold luma in Hone, Hnone.
    rewrite (Hnone _ Hd) in Hone. discriminate.
Qed.

Lemma findDarkest_first_minimum_witness :
  let palette := PaletteValue.mk 9 9 9 :: PaletteValue.mk 3 3 3 ::
                 PaletteValue.mk 3 3 3 :: replicate 13 (PaletteValue.mk 200 100 50) in
  let d := snd (findDarkest palette) in
  (d < 16)%nat /\
  ((exists i, (i < 16)%nat /\ Float32.ltb (luma palette i) Float32.c1 = true) ->
   (forall i, (i < 16)%nat -> Float32.ltb (luma palette i) (luma palette d) = false) /\
   (forall i, (i < d)%nat -> Float32.ltb (luma palette d) (luma palette i) = true)) /\
  ((forall i, (i < 16)%nat -> Float32.ltb (luma palette i) Float32.c1 = false) ->
   d = 0%nat).
Proof.
  intros palette. apply (findDarkest_first_minimum palette).
  unfold palette. simpl.
  repeat (apply Forall_cons; split; [unfold PaletteValue.valid; simpl; lia|]).
  apply Forall_nil. exact I.
Defined.

(** ** What the normalizer does to the palette *)

Lemma setDarkestColorToBlackAndIndex0_entries
    (palette : list PaletteValue.t) (image4bit : list Z) (numBytes : nat) :
  length palette = 16%nat ->
  let d := snd (findDarkest palette) in
  let palette' := fst (setDarkestColorToBlackAndIndex0 palette image4bit numBytes) in
  length palette' = 16%nat /\
  palette' !!! 0%nat = PaletteValue.black /\
  (d <> 0%nat -> palette' !!! d = palette !!! 0%nat) /\
  (forall i, i <> 0%nat -> i <> d -> palette' !!! i = palette !!! i).
Proof.
  intros Hlen d palette'. subst palette'. unfold setDarkestColorToBlackAndIndex0.
  pose proof (findDarkest_index palette) as Hd. fold d in Hd |- *.
  destruct (Nat.eqb_spec 0 d) as [Hz|Hnz]; cbv zeta; cbn [fst].
  - split; [rewrite length_insert; exact Hlen|]. split; [|split].
    + rewrite <- Hz. apply list_lookup_total_insert_eq. lia.
    + intros Hne. lia.
    + intros i Hi0 Hid. apply list_lookup_total_insert_ne. lia.
  - split; [rewrite !length_insert; exact Hlen|]. split; [|split].
    + rewrite list_lookup_total_insert_ne by lia.
      rewrite list_lookup_total_insert_eq by (rewrite length_insert; lia).
      apply list_lookup_total_insert_eq. lia.
    + intros _. rewrite list_lookup_total_insert_eq by (rewrite !length_insert; lia).
      apply list_lookup_total_insert_ne. lia.
    + intros i Hi0 Hid. rewrite !list_lookup_total_insert_ne by lia. reflexivity.
Qed.

(** X2: from a palette of 16 entries the normalizer makes a palette of 16
    entries in which entry 0 is black, entry [d] (the darkest index, when it
    is not 0) is the former entry 0, and every other entry is as it was. *)
Theorem setDarkestColorToBlackAndIndex0_swaps_entries
    (palette : list PaletteValue.t) (image4bit : list Z) (numBytes : nat) :
  length palette = 16%nat ->
  let d := snd (findDarkest palette) in
  let palette' := fst (setDarkestColorToBlackAndIndex0 palette image4bit numBytes) in
  length palette' = 16%nat /\
  palette' !!! 0%nat = PaletteValue.black /\
  (d <> 0%nat -> palette' !!! d = palette !!! 0%nat) /\
  (forall i, (i < 16)%nat -> i <> 0%nat -> i <> d -> palette' !!! i = palette !!! i).
Proof.
  intros Hlen.
  destruct (setDarkestColorToBlackAndIndex0_entries palette image4bit numBytes Hlen)
    as (Hl & Hblack & Hd & Hothers).
  cbv zeta. split; [exact Hl|]. split; [exact Hblack|]. split; [exact Hd|].
  intros i _ Hi0 Hid. apply Hothers; assumption.
Qed.

Lemma setDarkestColorToBlackAndIndex0_swaps_entries_witness :
  let palette := PaletteValue.mk 9 9 9 :: PaletteValue.mk 3 3 3 ::
                 replicate 14 (PaletteValue.mk 200 100 50) in
  let d := snd (findDarkest palette) in
  let palette' := fst (setDarkestColorToBlackAndIndex0 palette [0x10] 1) in
  length palette' = 16%nat /\
  palette' !!! 0%nat = PaletteValue.black /\
  (d <> 0%nat -> palette' !!! d = palette !!! 0%nat) /\
  (forall i, (i < 16)%nat -> i <> 0%nat -> i <> d -> palette' !!! i = palette !!! i).
Proof.
  intros palette.
  apply (setDarkestColorToBlackAndIndex0_swaps_entries palette [0x10] 1).
  reflexivity.
Defined.

(** ** The table is its own inverse *)

Lemma buildLut_involution_table :
  forallb (fun d =>
             let lut := buildLut d in
             forallb (fun b =>
                        (0 <=? lut !!! b) && (lut !!! b <=? 255) &&
                        (lut !!! Z.to_nat (lut !!! b) =? Z.of_nat b))
                     (seq 0 256))
          (seq 1 15) = true.
Proof. vm_compute. reflexivity. Qed.

Lemma buildLut_twice (d b : nat) :
  (1 <= d <= 15)%nat -> (b < 256)%nat ->
  0 <= buildLut d !!! b <= 255 /\
  buildLut d !!! Z.to_nat (buildLut d !!! b) = Z.of_nat b.
Proof.
  intros Hd Hb. pose proof buildLut_involution_table as H.
  rewrite forallb_forall in H.
  assert (In d (seq 1 15)) as Hind by (apply in_seq; lia).
  specialize (H d Hind). cbv zeta in H. rewrite forallb_forall in H.
  assert (In b (seq 0 256)) as Hinb by (apply in_seq; lia).
  specialize (H b Hinb). rewrite !andb_true_iff in H.
  destruct H as [[Hlo Hhi] Hinv].
  apply Z.leb_le in Hlo, Hhi. apply Z.eqb_eq in Hinv. split; [lia | exact Hinv].
Qed.

(** ** What the normalizer does to the packed image *)

Lemma remapPixels_bytes (lut image4bit : list Z) (numBytes : nat) :
  (numBytes <= length image4bit)%nat ->
  let out := remapPixels lut image4bit numBytes in
  length out = length image4bit /\
  (forall j, (j < numBytes)%nat -> out !!! j = lut !!! Z.to_nat (image4bit !!! j)) /\
  (forall j, (numBytes <= j)%nat -> out !! j = image4bit !! j).
Proof.
  intros Hlen out. subst out. unfold remapPixels.
  apply (for_loop_invariant
    (fun k (out : list Z) =>
       length out = length image4bit /\
       (forall j, (j < k)%nat -> out !!! j = lut !!! Z.to_nat (image4bit !!! j)) /\
       (forall j, (k <= j)%nat -> out !! j = image4bit !! j))).
  - lia.
  - split; [reflexivity|]. split; [intros j Hj; lia | reflexivity].
  - intros k out Hk (Hl & Hdone & Hrest). split; [|split].
    + rewrite length_insert. exact Hl.
    + intros j Hj. destruct (decide (j = k)) as [->|Hne].
      * rewrite list_lookup_total_insert_eq by lia.
        rewrite (list_lookup_total_alt out k), (Hrest k) by lia.
        rewrite <- list_lookup_total_alt. reflexivity.
      * rewrite list_lookup_total_insert_ne by lia. apply Hdone. lia.
    + intros j Hj. rewrite list_lookup_insert_ne by lia. apply Hrest. lia.
Qed.

(** X3: the normalizer keeps the length of the packed image and every byte
    from offset [numBytes] on.  With [d = 0] it returns the image as given.
    With [d <> 0], each of the first [numBytes] bytes whose nibbles are both
    in [{0, d}] or both outside it has its two nibbles swapped, and each byte
    that pairs a nibble in [{0, d}] with one outside it is left as it was. *)
Theorem setDarkestColorToBlackAndIndex0_remaps_image
    (palette : list PaletteValue.t) (image4bit : list Z) (numBytes : nat) :
  (numBytes <= length image4bit)%nat ->
  Forall isByte image4bit ->
  let d := snd (findDarkest palette) in
  let image' := snd (setDarkestColorToBlackAndIndex0 palette image4bit numBytes) in
  length image' = length image4bit /\
  (d = 0%nat -> image' = image4bit) /\
  (forall j, (numBytes <= j)%nat -> image' !! j = image4bit !! j) /\
  (d <> 0%nat -> forall j, (j < numBytes)%nat ->
     image' !!! j =
       if mixedByte (Z.of_nat d) (image4bit !!! j) then image4bit !!! j
       else swapByte (Z.of_nat d) (image4bit !!! j)).
Proof.
  intros Hlen Hbytes d image'. subst image'. unfold setDarkestColorToBlackAndIndex0.
  pose proof (findDarkest_index palette) as Hd. fold d in Hd |- *.
  destruct (Nat.eqb_spec 0 d) as [Hz|Hnz]; cbv zeta; cbn [snd].
  - split; [reflexivity|]. split; [reflexivity|]. split; [reflexivity|].
    intros Hne. lia.
  - destruct (remapPixels_bytes (buildLut d) image4bit numBytes Hlen)
      as (Hl & Hdone & Hrest).
    split; [exact Hl|]. split; [intros Hd0; lia|]. split; [exact Hrest|].
    intros _ j Hj. rewrite (Hdone j Hj).
    assert (isByte (image4bit !!! j)) as Hb
      by (apply (Forall_lookup_total_1 isByte); [exact Hbytes | lia]).
    unfold isByte in Hb.
    rewrite buildLut_entry by lia. rewrite Z2Nat.id by lia. reflexivity.
Qed.

Lemma setDarkestColorToBlackAndIndex0_remaps_image_witness :
  let palette := PaletteValue.mk 9 9 9 :: PaletteValue.mk 3 3 3 ::
                 replicate 14 (PaletteValue.mk 200 100 50) in
  let image4bit := [0x10; 0x12; 0x01] in
  let d := snd (findDarkest palette) in
  let image' := snd (setDarkestColorToBlackAndIndex0 palette image4bit 2) in
  length image' = length image4bit /\
  (d = 0%nat -> image' = image4bit) /\
  (forall j, (2 <= j)%nat -> image' !! j = image4bit !! j) /\
  (d <> 0%nat -> forall j, (j < 2)%nat ->
     image' !!! j =
       if mixedByte (Z.of_nat d) (image4bit !!! j) then image4bit !!! j
       else swapByte (Z.of_nat d) (image4bit !!! j)).
Proof.
  intros palette image4bit.
  apply (setDarkestColorToBlackAndIndex0_remaps_image palette image4bit 2).
  - simpl. lia.
  - unfold image4bit. repeat (apply Forall_cons; split; [unfold isByte; lia|]).
    apply Forall_nil. exact I.
Defined.

(** X4: applying the normalizer to the palette and the packed image it has
    returned gives the same palette and the same image again. *)
Theorem setDarkestColorToBlackAndIndex0_idempotent
    (palette : list PaletteValue.t) (image4bit : list Z) (numBytes : nat) :
  length palette = 16%nat ->
  Forall PaletteValue.valid palette ->
  let once := setDarkestColorToBlackAndIndex0 palette image4bit numBytes in
  setDarkestColorToBlackAndIndex0 (fst once) (snd once) numBytes = once.
Proof.
  intros Hlen Hall once.
  destruct (setDarkestColorToBlackAndIndex0_palette palette image4bit numBytes Hlen Hall)
    as (Hl & Hvalid & Hblack).
  fold once in Hl, Hvalid, Hblack.
  assert (fst once !! 0%nat = Some PaletteValue.black) as H0.
  { rewrite list_lookup_lookup_total_lt by lia. rewrite Hblack. reflexivity. }
  unfold setDarkestColorToBlackAndIndex0 at 1.
  rewrite (findDarkest_black_first (fst once) Hvalid H0). cbn [snd Nat.eqb].
  rewrite (list_insert_id (fst once) 0 PaletteValue.black H0).
  destruct once. reflexivity.
Qed.

Lemma setDarkestColorToBlackAndIndex0_idempotent_witness :
  let palette := PaletteValue.mk 9 9 9 :: PaletteValue.mk 3 3 3 ::
                 replicate 14 (PaletteValue.mk 200 100 50) in
  let once := setDarkestColorToBlackAndIndex0 palette [0x10; 0x12] 2 in
  setDarkestColorToBlackAndIndex0 (fst once) (snd once) 2 = once.
Proof.
  intros palette.
  apply (setDarkestColorToBlackAndIndex0_idempotent palette [0x10; 0x12] 2).
  - reflexivity.
  - unfold palette. simpl.
    repeat (apply Forall_cons; split; [unfold PaletteValue.valid; simpl; lia|]).
    apply Forall_nil. exact I.
Defined.

(** Division and remainder by a constant, for [lia]. *)
Ltac Zify.zify_post_hook ::= Z.to_euclidean_division_equations.

(** ** Packing the cluster indices *)

Lemma packByte_table :
  forallb (fun v : nat =>
    forallb (fun c : nat =>
      let hi := packByte (Z.of_nat v) (Z.of_nat c) 4 in
      let lo := packByte (Z.of_nat v) (Z.of_nat c) 0 in
      (0 <=? hi) && (hi <=? 255) && ((hi / 16) mod 16 =? Z.of_nat c) &&
      (hi mod 16 =? Z.of_nat v mod 16) &&
      (0 <=? lo) && (lo <=? 255) && (lo mod 16 =? Z.of_nat c) &&
      ((lo / 16) mod 16 =? (Z.of_nat v / 16) mod 16))
    (seq 0 16)) (seq 0 256) = true.
Proof. vm_compute. reflexivity. Qed.

Lemma packByte_nibbles (v c : Z) :
  isByte v -> 0 <= c <= 15 ->
  (isByte (packByte v c 4) /\ (packByte v c 4 / 16) mod 16 = c /\
   packByte v c 4 mod 16 = v mod 16) /\
  (isByte (packByte v c 0) /\ packByte v c 0 mod 16 = c /\
   (packByte v c 0 / 16) mod 16 = (v / 16) mod 16).
Proof.
  intros Hv Hc. unfold isByte in *. pose proof packByte_table as H.
  rewrite forallb_forall in H. specialize (H (Z.to_nat v)).
  assert (In (Z.to_nat v) (seq 0 256)) as Hinv by (apply in_seq; lia).
  specialize (H Hinv). rewrite forallb_forall in H. specialize (H (Z.to_nat c)).
  assert (In (Z.to_nat c) (seq 0 16)) as Hinc by (apply in_seq; lia).
  specialize (H Hinc). cbv zeta in H. rewrite !Z2Nat.id in H by lia.
  rewrite !andb_true_iff in H.
  destruct H as [[[[[[[H1 H2] H3] H4] H5] H6] H7] H8].
  apply Z.leb_le in H1, H2, H5, H6. apply Z.eqb_eq in H3, H4, H7, H8.
  repeat split; assumption || lia.
Qed.

Lemma nibbleOf_insert (image4bit : list Z) (b : nat) (v : Z) (i : nat) :
  (b < length image4bit)%nat ->
  nibbleOf (<[b := v]> image4bit) i =
    if decide ((i / 2)%nat = b)
    then (if Nat.even i then (v / 16) mod 16 else v mod 16)
    else nibbleOf image4bit i.
Proof.
  intros Hb. unfold nibbleOf. destruct (decide ((i / 2)%nat = b)) as [<-|Hne].
  - rewrite list_lookup_total_insert_eq by exact Hb. reflexivity.
  - rewrite list_lookup_total_insert_ne by congruence. reflexivity.
Qed.

Lemma even_half (k : nat) : Nat.even k = true -> k = (2 * (k / 2))%nat.
Proof. intros He. apply Nat.even_spec in He. destruct He as [m ->]. lia. Qed.

Lemma odd_half (k : nat) : Nat.even k = false -> k = (2 * (k / 2) + 1)%nat.
Proof.
  intros He. assert (Nat.odd k = true) as Ho by (rewrite <- Nat.negb_even, He; reflexivity).
  apply Nat.odd_spec in Ho. destruct Ho as [m ->]. lia.
Qed.

Lemma even_double (m : nat) : Nat.even (2 * m) = true.
Proof. apply Nat.even_spec. exists m. reflexivity. Qed.

Lemma even_double_succ (m : nat) : Nat.even (2 * m + 1) = false.
Proof.
  rewrite <- Nat.negb_odd. apply negb_false_iff. apply Nat.odd_spec. exists m. reflexivity.
Qed.

Lemma packPixels_state (numPixels : nat) (rgba image4bit : list Z) :
  ((numPixels + 1) / 2 <= length image4bit)%nat ->
  Forall isByte image4bit ->
  (forall i, (i < numPixels)%nat -> 0 <= rgba !!! (i * 4 + 3)%nat <= 15) ->
  let out := packPixels numPixels rgba image4bit in
  length out = length image4bit /\
  Forall isByte out /\
  (forall i, (i < numPixels)%nat -> nibbleOf out i = rgba !!! (i * 4 + 3)%nat) /\
  (forall i, (numPixels <= i)%nat -> nibbleOf out i = nibbleOf image4bit i) /\
  (forall j, ((numPixels + 1) / 2 <= j)%nat -> out !! j = image4bit !! j).
Proof.
  intros Hlen Hbytes Hidx out. subst out. unfold packPixels.
  apply (for_loop_invariant
    (fun k (out : list Z) =>
       length out = length image4bit /\
       Forall isByte out /\
       (forall i, (i < k)%nat -> nibbleOf out i = rgba !!! (i * 4 + 3)%nat) /\
       (forall i, (k <= i)%nat -> nibbleOf out i = nibbleOf image4bit i) /\
       (forall j, ((k + 1) / 2 <= j)%nat -> out !! j = image4bit !! j))).
  - lia.
  - split; [reflexivity|]. split; [exact Hbytes|].
    split; [intros i Hi; lia|]. split; reflexivity.
  - intros k out Hk (Hl & Hb & Hdone & Hrest & Hframe). cbv zeta.
    fold (packByte (out !!! (k / 2)%nat) (rgba !!! (k * 4 + 3)%nat) (shiftAmount k)).
    assert (k / 2 < length out)%nat as Hin by lia.
    assert (isByte (out !!! (k / 2)%nat)) as Hv
      by (apply (Forall_lookup_total_1 isByte); assumption).
    destruct (packByte_nibbles _ _ Hv (Hidx k ltac:(lia)))
      as [(Hhb & Hhh & Hhl) (Hlb & Hll & Hlh)].
    rewrite shiftAmount_even_odd.
    destruct (Nat.even k) eqn:He.
    + pose proof (even_half k He) as Hk2.
      split; [rewrite length_insert; exact Hl|].
      split; [apply Forall_insert; assumption|].
      split; [|split].
      * intros i Hi. rewrite nibbleOf_insert by exact Hin.
        destruct (decide ((i / 2)%nat = (k / 2)%nat)) as [Heq|Hne].
        -- assert (i = k) as -> by lia. rewrite He. exact Hhh.
        -- apply Hdone. lia.
      * intros i Hi. rewrite nibbleOf_insert by exact Hin.
        destruct (decide ((i / 2)%nat = (k / 2)%nat)) as [Heq|Hne].
        -- assert (i = 2 * (k / 2) + 1)%nat as Hi' by lia. subst i.
           rewrite even_double_succ, Hhl, <- (Hrest (2 * (k / 2) + 1)%nat) by lia.
           unfold nibbleOf. rewrite even_double_succ.
           replace ((2 * (k / 2) + 1) / 2)%nat with (k / 2)%nat by lia. reflexivity.
        -- apply Hrest. lia.
      * intros j Hj. rewrite list_lookup_insert_ne by lia. apply Hframe. lia.
    + pose proof (odd_half k He) as Hk2.
      split; [rewrite length_insert; exact Hl|].
      split; [apply Forall_insert; assumption|].
      split; [|split].
      * intros i Hi. rewrite nibbleOf_insert by exact Hin.
        destruct (decide ((i / 2)%nat = (k / 2)%nat)) as [Heq|Hne].
        -- destruct (decide (i = k)) as [->|Hik].
           ++ rewrite He. exact Hll.
           ++ assert (i = 2 * (k / 2))%nat as Hi' by lia. subst i.
              rewrite even_double, Hlh, <- (Hdone (2 * (k / 2))%nat) by lia.
              unfold nibbleOf. rewrite even_double.
              replace (2 * (k / 2) / 2)%nat with (k / 2)%nat by lia. reflexivity.
        -- apply Hdone. lia.
      * intros i Hi. rewrite nibbleOf_insert by exact Hin.
        destruct (decide ((i / 2)%nat = (k / 2)%nat)) as [Heq|Hne]; [lia|].
        apply Hrest. lia.
      * intros j Hj. rewrite list_lookup_insert_ne by lia. apply Hframe. lia.
Qed.

Ltac Zify.zify_post_hook ::= idtac.

(** X6: after the packing loop the nibble of every pixel [i < numPixels] is
    its cluster index (the fourth byte of the pixel in the working buffer),
    high nibble for an even pixel and low nibble for an odd one.  The
    nibbles of the positions from [numPixels] on keep what the caller's
    buffer held, in particular the low nibble of the last byte when
    [numPixels] is odd, as does every byte from offset [(numPixels + 1) / 2]
    on; the length is kept. *)
Theorem packPixels_nibbles (numPixels : nat) (rgba image4bit : list Z) :
  ((numPixels + 1) / 2 <= length image4bit)%nat ->
  Forall isByte image4bit ->
  (forall i, (i < numPixels)%nat -> 0 <= rgba !!! (i * 4 + 3)%nat <= 15) ->
  let out := packPixels numPixels rgba image4bit in
  length out = length image4bit /\
  (forall i, (i < numPixels)%nat -> nibbleOf out i = rgba !!! (i * 4 + 3)%nat) /\
  (forall i, (numPixels <= i)%nat -> nibbleOf out i = nibbleOf image4bit i) /\
  (forall j, ((numPixels + 1) / 2 <= j)%nat -> out !! j = image4bit !! j).
Proof.
  intros Hlen Hbytes Hidx.
  destruct (packPixels_state numPixels rgba image4bit Hlen Hbytes Hidx)
    as (Hl & _ & Hdone & Hrest & Hframe).
  cbv zeta. split; [exact Hl|]. split; [exact Hdone|]. split; assumption.
Qed.

Lemma packPixels_nibbles_witness :
  let rgba := [1; 2; 3; 10; 4; 5; 6; 11; 7; 8; 9; 12] in
  let image4bit := [0x55; 0x66; 0x77] in
  let out := packPixels 3 rgba image4bit in
  length out = length image4bit /\
  (forall i, (i < 3)%nat -> nibbleOf out i = rgba !!! (i * 4 + 3)%nat) /\
  (forall i, (3 <= i)%nat -> nibbleOf out i = nibbleOf image4bit i) /\
  (forall j, ((3 + 1) / 2 <= j)%nat -> out !! j = image4bit !! j).
Proof.
  intros rgba image4bit. apply (packPixels_nibbles 3 rgba image4bit).
  - simpl. lia.
  - unfold image4bit. repeat (apply Forall_cons; split; [unfold isByte; lia|]).
    apply Forall_nil. exact I.
  - intros i Hi. destruct i as [|[|[|i]]]; simpl; lia.
Defined.

(** ** Rendering what was packed *)

Lemma applyColorsToPixelBuffer_pixels
    (rgba image4bit palette24bit : list Z) (numPixels : nat) :
  (numPixels * 4 <= length rgba)%nat ->
  let out := applyColorsToPixelBuffer rgba image4bit palette24bit numPixels in
  forall i, (i < numPixels)%nat ->
    let colorIdx := Z.to_nat (nibbleOf image4bit i) in
    out !!! (i * 4 + 0)%nat = palette24bit !!! (colorIdx * 3 + 0)%nat /\
    out !!! (i * 4 + 1)%nat = palette24bit !!! (colorIdx * 3 + 1)%nat /\
    out !!! (i * 4 + 2)%nat = palette24bit !!! (colorIdx * 3 + 2)%nat /\
    out !!! (i * 4 + 3)%nat = 0xff.
Proof.
  intros Hlen out. subst out. unfold applyColorsToPixelBuffer.
  assert (let out := for_loop 0 numPixels
     (fun i rgba0 =>
        let byteIdx := (i / 2)%nat in
        let colorIdx :=
          Z.to_nat (Word.u8 (Z.land (Z.shiftr (image4bit !!! byteIdx) (shiftAmount i)) 0xf)) in
        <[(i * 4 + 3)%nat := 0xff]>
          (<[(i * 4 + 2)%nat := palette24bit !!! (colorIdx * 3 + 2)%nat]>
             (<[(i * 4 + 1)%nat := palette24bit !!! (colorIdx * 3 + 1)%nat]>
                (<[(i * 4 + 0)%nat := palette24bit !!! (colorIdx * 3 + 0)%nat]> rgba0))))
     rgba in
     length out = length rgba /\
     forall i, (i < numPixels)%nat ->
       let colorIdx := Z.to_nat (nibbleOf image4bit i) in
       out !!! (i * 4 + 0)%nat = palette24bit !!! (colorIdx * 3 + 0)%nat /\
       out !!! (i * 4 + 1)%nat = palette24bit !!! (colorIdx * 3 + 1)%nat /\
       out !!! (i * 4 + 2)%nat = palette24bit !!! (colorIdx * 3 + 2)%nat /\
       out !!! (i * 4 + 3)%nat = 0xff) as H.
  { apply (for_loop_invariant
      (fun k (out : list Z) =>
         length out = length rgba /\
         forall i, (i < k)%nat ->
           let colorIdx := Z.to_nat (nibbleOf image4bit i) in
           out !!! (i * 4 + 0)%nat = palette24bit !!! (colorIdx * 3 + 0)%nat /\
           out !!! (i * 4 + 1)%nat = palette24bit !!! (colorIdx * 3 + 1)%nat /\
           out !!! (i * 4 + 2)%nat = palette24bit !!! (colorIdx * 3 + 2)%nat /\
           out !!! (i * 4 + 3)%nat = 0xff)).
    - lia.
    - split; [reflexivity | intros i Hi; lia].
    - intros k out Hk (Hl & Hdone). cbv beta zeta. rewrite extract_nibble. split.
      + lookup_insert. exact Hl.
      + intros i Hi. destruct (decide (i = k)) as [->|Hne].
        * cbv zeta. lookup_insert. repeat split; reflexivity.
        * cbv zeta. lookup_insert. apply Hdone. lia. }
  cbv zeta in H. apply H.
Qed.

(** X7: rendering the image that the packing loop has written gives every
    pixel [i] the three bytes of the palette entry of its cluster index and
    the alpha 0xFF: [applyColorsToPixelBuffer] reads back what the packing
    loop of [posterize] writes. *)
Theorem render_of_packed_pixels
    (numPixels : nat) (clusters image4bit palette24bit rgbaOut : list Z) :
  ((numPixels + 1) / 2 <= length image4bit)%nat ->
  Forall isByte image4bit ->
  (forall i, (i < numPixels)%nat -> 0 <= clusters !!! (i * 4 + 3)%nat <= 15) ->
  (numPixels * 4 <= length rgbaOut)%nat ->
  let packed := packPixels numPixels clusters image4bit in
  let out := applyColorsToPixelBuffer rgbaOut packed palette24bit numPixels in
  forall i, (i < numPixels)%nat ->
    let k := Z.to_nat (clusters !!! (i * 4 + 3)%nat) in
    out !!! (i * 4 + 0)%nat = palette24bit !!! (k * 3 + 0)%nat /\
    out !!! (i * 4 + 1)%nat = palette24bit !!! (k * 3 + 1)%nat /\
    out !!! (i * 4 + 2)%nat = palette24bit !!! (k * 3 + 2)%nat /\
    out !!! (i * 4 + 3)%nat = 0xff.
Proof.
  intros Himg Hbytes Hidx Hout packed out i Hi.
  destruct (packPixels_state numPixels clusters image4bit Himg Hbytes Hidx)
    as (_ & _ & Hdone & _).
  fold packed in Hdone.
  pose proof (applyColorsToPixelBuffer_pixels rgbaOut packed palette24bit numPixels
                Hout i Hi) as H.
  cbv zeta in H. rewrite (Hdone i Hi) in H. exact H.
Qed.

Lemma render_of_packed_pixels_witness :
  let clusters := [1; 2; 3; 10; 4; 5; 6; 11; 7; 8; 9; 12] in
  let palette24bit := Z.of_nat <$> seq 100 48 in
  let packed := packPixels 3 clusters [0x55; 0x66] in
  let out := applyColorsToPixelBuffer (replicate 12 0) packed palette24bit 3 in
  let k := Z.to_nat (clusters !!! (2 * 4 + 3)%nat) in
  out !!! (2 * 4 + 0)%nat = palette24bit !!! (k * 3 + 0)%nat /\
  out !!! (2 * 4 + 1)%nat = palette24bit !!! (k * 3 + 1)%nat /\
  out !!! (2 * 4 + 2)%nat = palette24bit !!! (k * 3 + 2)%nat /\
  out !!! (2 * 4 + 3)%nat = 0xff.
Proof.
  intros clusters palette24bit.
  apply (render_of_packed_pixels 3 clusters [0x55; 0x66] palette24bit (replicate 12 0)).
  - simpl. lia.
  - repeat (apply Forall_cons; split; [unfold isByte; lia|]). apply Forall_nil. exact I.
  - intros i Hi. destruct i as [|[|[|i]]]; simpl; lia.
  - simpl. lia.
  - lia.
Defined.

(** ** The clusters the loop starts from *)

Lemma seedClusters_pixels (random : nat -> Z) (rgba : list Z) (n : nat) :
  length rgba = (n * 4)%nat ->
  let out := seedClusters random (n * 4) rgba in
  length out = (n * 4)%nat /\
  (forall p, (p < n)%nat -> out !!! (p * 4 + 3)%nat = Word.u8 (random p)) /\
  (forall p ch, (p < n)%nat -> (ch < 3)%nat ->
     out !!! (p * 4 + ch)%nat = rgba !!! (p * 4 + ch)%nat).
Proof.
  intros Hlen out. subst out. unfold seedClusters. rewrite for_step_4.
  assert (let out := for_loop 0 n
            (fun j rgba0 =>
               <[(j * 4 + 3)%nat := Word.u8 (random ((j * 4) / 4)%nat)]> rgba0) rgba in
          length out = (n * 4)%nat /\
          (forall p, (p < n)%nat -> out !!! (p * 4 + 3)%nat = Word.u8 (random p)) /\
          (forall p ch, (p < n)%nat -> (ch < 3)%nat ->
             out !!! (p * 4 + ch)%nat = rgba !!! (p * 4 + ch)%nat)) as H.
  { apply (for_loop_invariant
      (fun m (out : list Z) =>
         length out = (n * 4)%nat /\
         (forall p, (p < m)%nat -> out !!! (p * 4 + 3)%nat = Word.u8 (random p)) /\
         (forall p ch, (p < n)%nat -> (ch < 3)%nat ->
            out !!! (p * 4 + ch)%nat = rgba !!! (p * 4 + ch)%nat))).
    - lia.
    - split; [exact Hlen|]. split; [intros p Hp; lia | reflexivity].
    - intros m out Hm (Hl & Hdone & Hcol). split; [|split].
      + rewrite length_insert. exact Hl.
      + intros p Hp. destruct (decide (p = m)) as [->|Hne].
        * rewrite list_lookup_total_insert_eq by lia.
          rewrite Nat.div_mul by lia. reflexivity.
        * rewrite list_lookup_total_insert_ne by lia. apply Hdone. lia.
      + intros p ch Hp Hch. rewrite list_lookup_total_insert_ne by lia.
        apply Hcol; assumption. }
  exact H.
Qed.

Lemma seeded_pixels (random : nat -> Z) (rgbaIn : list Z) (n : nat) :
  (n * 4 <= length rgbaIn)%nat ->
  let rgba := Lloyd.rgba (seeded random rgbaIn n) in
  length rgba = (n * 4)%nat /\
  (forall p, (p < n)%nat -> rgba !!! (p * 4 + 3)%nat = Word.u8 (random p)) /\
  (forall p ch, (p < n)%nat -> (ch < 3)%nat ->
     rgba !!! (p * 4 + ch)%nat = rgbaIn !!! (p * 4 + ch)%nat).
Proof.
  intros Hlen. cbn [seeded Lloyd.rgba].
  assert (length (take (n * 4) rgbaIn) = (n * 4)%nat) as Ht
    by (rewrite length_take; lia).
  destruct (seedClusters_pixels random (take (n * 4) rgbaIn) n Ht) as (Hl & Hidx & Hcol).
  cbv zeta. split; [exact Hl|]. split; [exact Hidx|].
  intros p ch Hp Hch. rewrite (Hcol p ch Hp Hch).
  apply lookup_total_take_lt. lia.
Qed.

(** X8: the working buffer that [posterize] enters the loop with has
    [4 n] bytes; pixel [p] has the [p]-th draw of the random source as its
    cluster and the three colour bytes of pixel [p] of the input. *)
Theorem seeded_clusters_are_the_draws (random : nat -> Z) (rgbaIn : list Z) (n : nat) :
  (n * 4 <= length rgbaIn)%nat ->
  (forall i, 0 <= random i <= 15) ->
  let rgba := Lloyd.rgba (seeded random rgbaIn n) in
  length rgba = (n * 4)%nat /\
  forall p, (p < n)%nat ->
    rgba !!! (p * 4 + 3)%nat = random p /\
    rgba !!! (p * 4 + 0)%nat = rgbaIn !!! (p * 4 + 0)%nat /\
    rgba !!! (p * 4 + 1)%nat = rgbaIn !!! (p * 4 + 1)%nat /\
    rgba !!! (p * 4 + 2)%nat = rgbaIn !!! (p * 4 + 2)%nat.
Proof.
  intros Hlen Hrandom.
  destruct (seeded_pixels random rgbaIn n Hlen) as (Hl & Hidx & Hcol).
  cbv zeta. split; [exact Hl|]. intros p Hp. split.
  - rewrite (Hidx p Hp). apply u8_small. pose proof (Hrandom p). lia.
  - repeat split; apply Hcol; lia.
Qed.

Lemma seeded_clusters_are_the_draws_witness :
  let random := fun i : nat => Z.of_nat i mod 16 in
  let rgbaIn := [10; 20; 30; 255; 40; 50; 60; 255; 1; 2] in
  let rgba := Lloyd.rgba (seeded random rgbaIn 2) in
  length rgba = (2 * 4)%nat /\
  forall p, (p < 2)%nat ->
    rgba !!! (p * 4 + 3)%nat = random p /\
    rgba !!! (p * 4 + 0)%nat = rgbaIn !!! (p * 4 + 0)%nat /\
    rgba !!! (p * 4 + 1)%nat = rgbaIn !!! (p * 4 + 1)%nat /\
    rgba !!! (p * 4 + 2)%nat = rgbaIn !!! (p * 4 + 2)%nat.
Proof.
  intros random rgbaIn. 
  apply (seeded_clusters_are_the_draws random rgbaIn 2).
  - simpl. lia.
  - intros i. unfold random. pose proof (Z.mod_pos_bound (Z.of_nat i) 16). lia.
Defined.

(** ** The working buffer through the iterations *)

Lemma lloydBody_rgba (n : nat) (st : Lloyd.t) :
  length (Lloyd.rgba st) = (n * 4)%nat ->
  let rgba' := Lloyd.rgba (lloydBody (n * 4) st) in
  length rgba' = (n * 4)%nat /\
  (forall p ch, (p < n)%nat -> (ch < 3)%nat ->
     rgba' !!! (p * 4 + ch)%nat = Lloyd.rgba st !!! (p * 4 + ch)%nat) /\
  (forall p, (p < n)%nat -> 0 <= rgba' !!! (p * 4 + 3)%nat <= 15).
Proof.
  intros Hlen. unfold lloydBody.
  match goal with
  | |- context [assignPixels (n * 4) ?cs (Lloyd.rgba st)] =>
      pose proof (assignPixels_buffer n cs (Lloyd.rgba st) Hlen) as H;
      pose proof (fun p => bestCluster_first_minimum cs (Lloyd.rgba st) (p * 4)) as Hb;
      destruct (assignPixels (n * 4) cs (Lloyd.rgba st)) as [rgba' changed];
      set (best p := bestCluster cs (Lloyd.rgba st) (p * 4)) in *
  end.
  cbv zeta in H, Hb. cbn [fst snd] in H. destruct H as (Hl & Hcol & Hbest & _).
  cbn [Lloyd.rgba]. split; [exact Hl|]. split; [exact Hcol|].
  intros p Hp. rewrite (Hbest p Hp). destruct (Hb p) as (Hlt & _). lia.
Qed.

Lemma lloydRuns_rgba (random : nat -> Z) (rgbaIn : list Z) (n m : nat) :
  (n * 4 <= length rgbaIn)%nat ->
  let rgba := Lloyd.rgba (lloydRuns (n * 4) (seeded random rgbaIn n) m) in
  length rgba = (n * 4)%nat /\
  (forall p ch, (p < n)%nat -> (ch < 3)%nat ->
     rgba !!! (p * 4 + ch)%nat = rgbaIn !!! (p * 4 + ch)%nat) /\
  ((1 <= m)%nat -> forall p, (p < n)%nat -> 0 <= rgba !!! (p * 4 + 3)%nat <= 15).
Proof.
  intros Hlen. cbv zeta. induction m as [|m IH].
  - destruct (seeded_pixels random rgbaIn n Hlen) as (Hl & _ & Hcol).
    split; [exact Hl|]. split; [exact Hcol | intros Hm; lia].
  - destruct IH as (Hl & Hcol & _).
    change (lloydRuns (n * 4) (seeded random rgbaIn n) (S m))
      with (lloydBody (n * 4) (lloydRuns (n * 4) (seeded random rgbaIn n) m)).
    destruct (lloydBody_rgba n _ Hl) as (Hl' & Hcol' & Hidx').
    split; [exact Hl'|]. split; [|intros _; exact Hidx'].
    intros p ch Hp Hch. rewrite (Hcol' p ch Hp Hch). apply Hcol; assumption.
Qed.



(** ** The cluster counters *)

Lemma clusterCount_total (rgba : list Z) (n : nat) :
  (forall p, (p < n)%nat -> 0 <= rgba !!! (p * 4 + 3)%nat <= 15) ->
  sumList ((fun k => clusterCount rgba k n) <$> seq 0 16) = Z.of_nat n.
Proof.
  intros Hidx. induction n as [|n IH]; [reflexivity|].
  specialize (IH ltac:(intros p Hp; apply Hidx; lia)).
  pose proof (Hidx n ltac:(lia)) as Hn.
  assert (Z.to_nat (rgba !!! (n * 4 + 3)%nat) < 16)%nat as Hj by lia.
  cbn [sumList foldr fmap list_fmap seq clusterCount] in *.
  clear Hn Hidx. generalize dependent (Z.to_nat (rgba !!! (n * 4 + 3)%nat)). intros j Hj.
  do 16 (destruct j as [|j]; [cbn [Nat.eqb]; lia|]). lia.
Qed.

(** X10: in every iteration, after the accumulation pass
    [numPixelsInCluster[k]] is the number of pixels that were in cluster [k],
    and the 16 counters add up to [numPixels]. *)
Theorem cluster_counters_count_the_members
    (random : nat -> Z) (rgbaIn : list Z) (n m : nat) :
  (n * 4 <= length rgbaIn)%nat ->
  Forall isByte rgbaIn ->
  (forall i, 0 <= random i <= 15) ->
  Z.of_nat n < 2 ^ 31 ->
  let before := lloydRuns (n * 4) (seeded random rgbaIn n) m in
  let count := Lloyd.numPixelsInCluster (lloydBody (n * 4) before) in
  (forall k, (k < 16)%nat -> count !!! k = clusterCount (Lloyd.rgba before) k n) /\
  sumList count = Z.of_nat n.
Proof.
  intros Hlen Hbytes Hrandom Hn before count.
  pose proof (lloydRuns_ok random rgbaIn n m Hlen Hbytes Hrandom Hn) as (Hbuf & Hc & Hcnt).
  fold before in Hbuf, Hc, Hcnt.
  destruct (lloydBody_passes n before Hc Hcnt) as (_ & Hcount & _).
  subst count. rewrite Hcount.
  destruct (sumClusters_sums n (Lloyd.rgba before) Hbuf Hn) as (_ & Hl & Hsums).
  destruct (sumClusters (n * 4) (Lloyd.rgba before) _) as [cs cnt]. cbn [fst snd] in *.
  assert (forall k, (k < 16)%nat -> cnt !!! k = clusterCount (Lloyd.rgba before) k n) as Hk
    by (intros k Hk; apply (Hsums k Hk)).
  split; [exact Hk|].
  assert (cnt = (fun k => clusterCount (Lloyd.rgba before) k n) <$> seq 0 16) as ->.
  { apply list_eq_same_length with 16%nat; [reflexivity | exact Hl |].
    intros i x y Hi Hx Hy. apply list_lookup_total_correct in Hx.
    rewrite list_lookup_fmap, lookup_seq_lt in Hy by exact Hi.
    simpl in Hy. injection Hy as <-. rewrite <- Hx. apply Hk, Hi. }
  apply clusterCount_total. intros p Hp.
  destruct Hbuf as (Hlb & Hb & Hi). pose proof (Hb (p * 4 + 3)%nat ltac:(lia)).
  pose proof (Hi p Hp). lia.
Qed.

Lemma cluster_counters_count_the_members_witness :
  let rgbaIn := [0; 0; 0; 255; 255; 255; 255; 255; 9; 9; 9; 9] in
  let before := lloydRuns (3 * 4) (seeded (fun i => Z.of_nat i mod 16) rgbaIn 3) 1 in
  let count := Lloyd.numPixelsInCluster (lloydBody (3 * 4) before) in
  (forall k, (k < 16)%nat -> count !!! k = clusterCount (Lloyd.rgba before) k 3) /\
  sumList count = Z.of_nat 3.
Proof.
  intros rgbaIn.
  apply (cluster_counters_count_the_members (fun i => Z.of_nat i mod 16) rgbaIn 3 1).
  - simpl. lia.
  - unfold rgbaIn. repeat (apply Forall_cons; split; [unfold isByte; lia|]).
    apply Forall_nil. exact I.
  - intros i. pose proof (Z.mod_pos_bound (Z.of_nat i) 16). lia.
  - reflexivity.
Defined.

(** ** An iteration that changes nothing *)

Lemma lloydBody_flag (n : nat) (st : Lloyd.t) :
  length (Lloyd.centroids st) = 16%nat ->
  length (Lloyd.numPixelsInCluster st) = 16%nat ->
  Lloyd.didChange (lloydBody (n * 4) st) =
    snd (assignPixels (n * 4) (centroidsOf n (Lloyd.rgba st)) (Lloyd.rgba st)).
Proof.
  intros Hc Hn. unfold lloydBody, centroidsOf.
  rewrite (resetClusters_zero _ _ Hc Hn).
  destruct (assignPixels _ _ _) as [rgba' changed]. reflexivity.
Qed.

(** X11: when an iteration leaves [didChange] false, the working buffer is
    the one it started from, the centroids are the means of the clusters as
    they now are, and one more execution of the body would give the same
    buffer and the same centroids and leave [didChange] false again. *)
Theorem unchanged_iteration_is_a_fixed_point
    (random : nat -> Z) (rgbaIn : list Z) (n m : nat) :
  (n * 4 <= length rgbaIn)%nat ->
  Forall isByte rgbaIn ->
  (forall i, 0 <= random i <= 15) ->
  Z.of_nat n < 2 ^ 31 ->
  let before := lloydRuns (n * 4) (seeded random rgbaIn n) m in
  let after := lloydBody (n * 4) before in
  let again := lloydBody (n * 4) after in
  Lloyd.didChange after = false ->
  Lloyd.rgba after = Lloyd.rgba before /\
  Lloyd.centroids after = centroidsOf n (Lloyd.rgba after) /\
  Lloyd.rgba again = Lloyd.rgba after /\
  Lloyd.centroids again = Lloyd.centroids after /\
  Lloyd.didChange again = false.
Proof.
  intros Hlen Hbytes Hrandom Hn before after again Hstill.
  pose proof (lloydRuns_ok random rgbaIn n m Hlen Hbytes Hrandom Hn) as (Hbuf & Hc & Hcnt).
  pose proof (lloydRuns_ok random rgbaIn n (S m) Hlen Hbytes Hrandom Hn)
    as (_ & Hc' & Hcnt').
  change (lloydRuns (n * 4) (seeded random rgbaIn n) (S m)) with after in Hc', Hcnt'.
  fold before in Hbuf, Hc, Hcnt.
  destruct (lloydBody_passes n before Hc Hcnt) as (Hcs & _ & Hrgba).
  pose proof (lloydBody_flag n before Hc Hcnt) as Hflag.
  destruct (lloydBody_passes n after Hc' Hcnt') as (Hcs' & _ & Hrgba').
  pose proof (lloydBody_flag n after Hc' Hcnt') as Hflag'.
  fold after in Hcs, Hrgba, Hflag. fold again in Hcs', Hrgba', Hflag'.
  pose proof Hbuf as (Hl & _ & _).
  destruct (assignPixels_buffer n (centroidsOf n (Lloyd.rgba before)) (Lloyd.rgba before) Hl)
    as (Hl' & Hcol & Hbest & Hsame).
  rewrite <- Hrgba in Hl', Hcol, Hbest. rewrite <- Hflag in Hsame.
  assert (Lloyd.rgba after = Lloyd.rgba before) as Heq.
  { apply list_eq_same_length with (n * 4)%nat; [exact Hl | exact Hl' |].
    intros i x y Hi Hx Hy.
    apply list_lookup_total_correct in Hx, Hy. subst x y.
    pose proof (Nat.div_mod_eq i 4) as Hdm.
    pose proof (Nat.mod_upper_bound i 4 ltac:(lia)) as Hmod.
    replace i with ((i / 4) * 4 + i mod 4)%nat by lia.
    destruct (decide (i mod 4 = 3)%nat) as [->|Hne].
    - rewrite Hbest by lia. symmetry. apply Hsame; [exact Hstill | lia].
    - apply Hcol; lia. }
  split; [exact Heq|]. rewrite Hcs', Hrgba', Hflag', Heq.
  rewrite <- Hrgba, <- Hflag, <- Hcs.
  split; [reflexivity|]. split; [exact Heq|]. split; [reflexivity | exact Hstill].
Qed.

Lemma unchanged_iteration_is_a_fixed_point_witness :
  let rgbaIn := [0; 0; 0; 255; 255; 255; 255; 255] in
  let before := lloydRuns (2 * 4) (seeded (fun _ => 3) rgbaIn 2) 1 in
  let after := lloydBody (2 * 4) before in
  let again := lloydBody (2 * 4) after in
  Lloyd.rgba after = Lloyd.rgba before /\
  Lloyd.centroids after = centroidsOf 2 (Lloyd.rgba after) /\
  Lloyd.rgba again = Lloyd.rgba after /\
  Lloyd.centroids again = Lloyd.centroids after /\
  Lloyd.didChange again = false.
Proof.
  intros rgbaIn.
  apply (unchanged_iteration_is_a_fixed_point (fun _ => 3) rgbaIn 2 1).
  - simpl. lia.
  - unfold rgbaIn. repeat (apply Forall_cons; split; [unfold isByte; lia|]).
    apply Forall_nil. exact I.
  - intros i. lia.
  - reflexivity.
  - vm_compute. reflexivity.
Defined.

(** ** Applying the remap twice *)

(** X5: for a darkest index in [1,15], remapping the first [numBytes] bytes
    of a packed image through the table and then once more gives the image
    back: the table is its own inverse. *)
Theorem remapPixels_twice (d : nat) (image4bit : list Z) (numBytes : nat) :
  (1 <= d <= 15)%nat ->
  (numBytes <= length image4bit)%nat ->
  Forall isByte image4bit ->
  remapPixels (buildLut d) (remapPixels (buildLut d) image4bit numBytes) numBytes
    = image4bit.
Proof.
  intros Hd Hlen Hbytes.
  destruct (remapPixels_bytes (buildLut d) image4bit numBytes Hlen) as (Hl & Hdone & Hrest).
  set (once := remapPixels (buildLut d) image4bit numBytes) in *.
  destruct (remapPixels_bytes (buildLut d) once numBytes ltac:(lia))
    as (Hl' & Hdone' & Hrest').
  apply list_eq. intros j.
  destruct (le_lt_dec numBytes j) as [Hge|Hlt].
  - rewrite (Hrest' j Hge). apply Hrest, Hge.
  - rewrite !list_lookup_lookup_total_lt by lia. f_equal.
    rewrite (Hdone' j Hlt), (Hdone j Hlt).
    assert (isByte (image4bit !!! j)) as Hb
      by (apply (Forall_lookup_total_1 isByte); [exact Hbytes | lia]).
    unfold isByte in Hb.
    destruct (buildLut_twice d (Z.to_nat (image4bit !!! j)) Hd ltac:(lia)) as [_ Hinv].
    rewrite Hinv. lia.
Qed.

Lemma remapPixels_twice_witness :
  remapPixels (buildLut 3) (remapPixels (buildLut 3) [0x30; 0x13; 0x33; 0x00] 3) 3
    = [0x30; 0x13; 0x33; 0x00].
Proof.
  apply (remapPixels_twice 3 [0x30; 0x13; 0x33; 0x00] 3).
  - lia.
  - simpl. lia.
  - repeat (apply Forall_cons; split; [unfold isByte; lia|]). apply Forall_nil. exact I.
Defined.

(** ** What [posterize] returns *)

Ltac Zify.zify_post_hook ::= Z.to_euclidean_division_equations.

Lemma posterize_result
    (fuel : nat) (random : nat -> Z) (image4bit palette24bit rgbaIn : list Z) (n : nat) :
  (24 <= fuel)%nat ->
  exists k, (1 <= k <= 24)%nat /\
    let st := lloydRuns (n * 4) (seeded random rgbaIn n) k in
    lloydLoop fuel (n * 4) (seeded random rgbaIn n) = Some st /\
    posterize fuel random image4bit palette24bit rgbaIn n =
      Some (snd (normalized st image4bit n),
            copyPalette (fst (normalized st image4bit n)) palette24bit).
Proof.
  intros Hfuel.
  destruct (lloydLoop_returns fuel (n * 4) (seeded random rgbaIn n) eq_refl Hfuel)
    as (k & Hk & Hrun).
  exists k. split; [exact Hk|]. cbv zeta. split; [exact Hrun|].
  rewrite posterize_seeded, Hrun. unfold normalized.
  destruct (setDarkestColorToBlackAndIndex0 _ _ _) as [palette image']. reflexivity.
Qed.

Lemma setDarkestColorToBlackAndIndex0_image
    (palette : list PaletteValue.t) (image4bit : list Z) (numBytes : nat) :
  snd (setDarkestColorToBlackAndIndex0 palette image4bit numBytes) =
    if (0 =? snd (findDarkest palette))%nat then image4bit
    else remapPixels (buildLut (snd (findDarkest palette))) image4bit numBytes.
Proof.
  unfold setDarkestColorToBlackAndIndex0.
  destruct (0 =? snd (findDarkest palette))%nat; reflexivity.
Qed.

(** X12: [posterize] returns, keeps the lengths of [image4bit] and of
    [palette24bit], and leaves as the caller had them every byte of
    [image4bit] from offset [(n + 1) / 2] on, every nibble of a position
    from [n] on (the low nibble of the last byte when [n] is odd), and every
    byte of [palette24bit] from offset 48 on. *)
Theorem posterize_writes_only_its_output
    (fuel : nat) (random : nat -> Z) (image4bit palette24bit rgbaIn : list Z) (n : nat) :
  (24 <= fuel)%nat ->
  (n * 4 <= length rgbaIn)%nat ->
  ((n + 1) / 2 <= length image4bit)%nat ->
  Forall isByte image4bit ->
  (48 <= length palette24bit)%nat ->
  exists image' palette',
    posterize fuel random image4bit palette24bit rgbaIn n = Some (image', palette') /\
    length image' = length image4bit /\
    (forall j, ((n + 1) / 2 <= j)%nat -> image' !! j = image4bit !! j) /\
    (forall i, (n <= i)%nat -> nibbleOf image' i = nibbleOf image4bit i) /\
    length palette' = length palette24bit /\
    (forall j, (48 <= j)%nat -> palette' !! j = palette24bit !! j).
Proof.
  intros Hfuel Hin Himg Hbytes Hpal.
  destruct (posterize_result fuel random image4bit palette24bit rgbaIn n Hfuel)
    as (k & Hk & _ & Hres).
  set (st := lloydRuns (n * 4) (seeded random rgbaIn n) k) in *.
  destruct (lloydRuns_rgba random rgbaIn n k Hin) as (_ & _ & Hidx).
  fold st in Hidx. specialize (Hidx ltac:(lia)).
  destruct (packPixels_state n (Lloyd.rgba st) image4bit Himg Hbytes Hidx)
    as (Hl & _ & _ & Hrest & Hframe).
  set (packed := packPixels n (Lloyd.rgba st) image4bit) in *.
  destruct (copyPalette_entries (fst (normalized st image4bit n)) palette24bit Hpal)
    as (Hlp & _ & Hfp).
  exists (snd (normalized st image4bit n)),
         (copyPalette (fst (normalized st image4bit n)) palette24bit).
  split; [exact Hres|].
  assert (length (snd (normalized st image4bit n)) = length image4bit /\
          forall j, (n / 2 <= j)%nat ->
            snd (normalized st image4bit n) !! j = packed !! j) as [Hl' Hsame].
  { unfold normalized. rewrite setDarkestColorToBlackAndIndex0_image. fold packed.
    destruct (0 =? _)%nat; [split; [exact Hl | reflexivity]|].
    destruct (remapPixels_bytes (buildLut (snd (findDarkest
                (createPalette (Lloyd.centroids st)
                   (replicate numColors PaletteValue.black))))) packed (n / 2))
      as (Hl2 & _ & Hrest2); [lia|].
    split; [lia | exact Hrest2]. }
  split; [exact Hl'|]. split; [|split; [|split; [exact Hlp | exact Hfp]]].
  - intros j Hj. rewrite Hsame by lia. apply Hframe, Hj.
  - intros i Hi. rewrite <- (Hrest i Hi). unfold nibbleOf.
    rewrite !list_lookup_total_alt, Hsame by lia. reflexivity.
Qed.

Lemma posterize_writes_only_its_output_witness :
  exists image' palette',
    posterize 24 (fun i => 2 * Z.of_nat i) [0xab; 0xcd; 0xef] (replicate 50 7)
              [200; 200; 200; 255; 10; 20; 30; 255; 0; 0; 0; 255] 3
      = Some (image', palette') /\
    length image' = length [0xab; 0xcd; 0xef] /\
    (forall j, ((3 + 1) / 2 <= j)%nat -> image' !! j = [0xab; 0xcd; 0xef] !! j) /\
    (forall i, (3 <= i)%nat -> nibbleOf image' i = nibbleOf [0xab; 0xcd; 0xef] i) /\
    length palette' = length (replicate 50 7) /\
    (forall j, (48 <= j)%nat -> palette' !! j = replicate 50 7 !! j).
Proof.
  apply (posterize_writes_only_its_output 24 (fun i => 2 * Z.of_nat i)
           [0xab; 0xcd; 0xef] (replicate 50 7)
           [200; 200; 200; 255; 10; 20; 30; 255; 0; 0; 0; 255] 3).
  - lia.
  - simpl. lia.
  - simpl. lia.
  - repeat (apply Forall_cons; split; [unfold isByte; lia|]). apply Forall_nil. exact I.
  - simpl. lia.
Defined.

Lemma normalized_palette (st : Lloyd.t) (image4bit : list Z) (n : nat) :
  let d := snd (findDarkest (createPalette (Lloyd.centroids st)
                               (replicate numColors PaletteValue.black))) in
  let palette' := fst (normalized st image4bit n) in
  (d < 16)%nat /\
  palette' !!! 0%nat = PaletteValue.black /\
  (d <> 0%nat -> palette' !!! d = narrowed (Lloyd.centroids st !!! 0%nat)) /\
  (forall i, (i < 16)%nat -> i <> 0%nat -> i <> d ->
     palette' !!! i = narrowed (Lloyd.centroids st !!! i)).
Proof.
  cbv zeta. unfold normalized.
  destruct (createPalette_entries (Lloyd.centroids st)
              (replicate numColors PaletteValue.black) eq_refl) as [Hl Hent].
  set (palette := createPalette (Lloyd.centroids st)
                    (replicate numColors PaletteValue.black)) in *.
  destruct (setDarkestColorToBlackAndIndex0_entries palette
              (packPixels n (Lloyd.rgba st) image4bit) (n / 2) Hl)
    as (_ & Hblack & Hd & Hothers).
  pose proof (findDarkest_index palette) as Hlt.
  split; [exact Hlt|]. split; [exact Hblack|]. split.
  - intros Hne. rewrite (Hd Hne). apply Hent. lia.
  - intros i Hi Hi0 Hid. rewrite (Hothers i Hi0 Hid). apply Hent, Hi.
Qed.

(** X13: the palette that [posterize] writes holds the centroids of the
    state the loop ended in, each channel narrowed to 8 bits, except that
    entry 0 is black and entry [d], the index of the darkest centroid when
    it is not 0, holds centroid 0. *)
Theorem posterize_palette_is_the_centroids
    (fuel : nat) (random : nat -> Z) (image4bit palette24bit rgbaIn : list Z) (n : nat) :
  (24 <= fuel)%nat ->
  (48 <= length palette24bit)%nat ->
  exists st image' palette',
    lloydLoop fuel (n * 4) (seeded random rgbaIn n) = Some st /\
    posterize fuel random image4bit palette24bit rgbaIn n = Some (image', palette') /\
    let d := snd (findDarkest (createPalette (Lloyd.centroids st)
                                 (replicate numColors PaletteValue.black))) in
    (d < 16)%nat /\
    paletteEntry palette' 0 = PaletteValue.black /\
    (d <> 0%nat -> paletteEntry palette' d = narrowed (Lloyd.centroids st !!! 0%nat)) /\
    (forall i, (i < 16)%nat -> i <> 0%nat -> i <> d ->
       paletteEntry palette' i = narrowed (Lloyd.centroids st !!! i)).
Proof.
  intros Hfuel Hpal.
  destruct (posterize_result fuel random image4bit palette24bit rgbaIn n Hfuel)
    as (k & Hk & Hrun & Hres).
  set (st := lloydRuns (n * 4) (seeded random rgbaIn n) k) in *.
  exists st, (snd (normalized st image4bit n)),
         (copyPalette (fst (normalized st image4bit n)) palette24bit).
  split; [exact Hrun|]. split; [exact Hres|].
  destruct (normalized_palette st image4bit n) as (Hlt & Hblack & Hd & Hothers).
  destruct (copyPalette_entries (fst (normalized st image4bit n)) palette24bit Hpal)
    as (_ & Hcopy & _).
  cbv zeta. split; [exact Hlt|]. split; [|split].
  - rewrite Hcopy by lia. exact Hblack.
  - intros Hne. rewrite Hcopy by exact Hlt. exact (Hd Hne).
  - intros i Hi Hi0 Hid. rewrite Hcopy by exact Hi. exact (Hothers i Hi Hi0 Hid).
Qed.

Lemma posterize_palette_is_the_centroids_witness :
  exists st image' palette',
    lloydLoop 24 (2 * 4) (seeded (fun _ => 3) [0; 0; 0; 255; 255; 255; 255; 255] 2)
      = Some st /\
    posterize 24 (fun _ => 3) [0x00] (replicate 48 7) [0; 0; 0; 255; 255; 255; 255; 255] 2
      = Some (image', palette') /\
    let d := snd (findDarkest (createPalette (Lloyd.centroids st)
                                 (replicate numColors PaletteValue.black))) in
    (d < 16)%nat /\
    paletteEntry palette' 0 = PaletteValue.black /\
    (d <> 0%nat -> paletteEntry palette' d = narrowed (Lloyd.centroids st !!! 0%nat)) /\
    (forall i, (i < 16)%nat -> i <> 0%nat -> i <> d ->
       paletteEntry palette' i = narrowed (Lloyd.centroids st !!! i)).
Proof.
  apply (posterize_palette_is_the_centroids 24 (fun _ => 3) [0x00] (replicate 48 7)
           [0; 0; 0; 255; 255; 255; 255; 255] 2).
  - lia.
  - simpl. lia.
Defined.

Lemma swapByte_nibbles_table :
  forallb (fun d : nat =>
    forallb (fun b : nat =>
      let d := Z.of_nat d in
      let b := Z.of_nat b in
      let hi := (b / 16) mod 16 in
      let lo := b mod 16 in
      eqb (mixedByte d b) (pairMixed d hi lo) &&
      ((swapByte d b / 16) mod 16 =? swapNibble d hi) &&
      (swapByte d b mod 16 =? swapNibble d lo))
    (seq 0 256)) (seq 1 15) = true.
Proof. vm_compute. reflexivity. Qed.

(** The two nibbles of the byte the table gives for a byte [b]. *)
Lemma buildLut_nibbles (d : nat) (b : Z) :
  (1 <= d <= 15)%nat -> isByte b ->
  let b' := buildLut d !!! Z.to_nat b in
  let hi := (b / 16) mod 16 in
  let lo := b mod 16 in
  (b' / 16) mod 16 =
    (if pairMixed (Z.of_nat d) hi lo then hi else swapNibble (Z.of_nat d) hi) /\
  b' mod 16 =
    (if pairMixed (Z.of_nat d) hi lo then lo else swapNibble (Z.of_nat d) lo).
Proof.
  intros Hd Hb. unfold isByte in Hb. cbv zeta.
  rewrite buildLut_entry by lia. rewrite Z2Nat.id by lia.
  pose proof swapByte_nibbles_table as H. rewrite forallb_forall in H.
  assert (In d (seq 1 15)) as Hind by (apply in_seq; lia).
  specialize (H d Hind). rewrite forallb_forall in H.
  assert (In (Z.to_nat b) (seq 0 256)) as Hinb by (apply in_seq; lia).
  specialize (H (Z.to_nat b) Hinb). cbv zeta in H. rewrite Z2Nat.id in H by lia.
  rewrite !andb_true_iff in H. destruct H as [[Hmix Hhi] Hlo].
  apply eqb_prop in Hmix. apply Z.eqb_eq in Hhi, Hlo. rewrite <- Hmix.
  destruct (mixedByte (Z.of_nat d) b); [split; reflexivity | split; assumption].
Qed.

Lemma normalized_nibbles (st : Lloyd.t) (image4bit : list Z) (n : nat) :
  ((n + 1) / 2 <= length image4bit)%nat ->
  Forall isByte image4bit ->
  (forall p, (p < n)%nat -> 0 <= Lloyd.rgba st !!! (p * 4 + 3)%nat <= 15) ->
  let d := snd (findDarkest (createPalette (Lloyd.centroids st)
                               (replicate numColors PaletteValue.black))) in
  let k j := Lloyd.rgba st !!! (j * 4 + 3)%nat in
  forall i, (i < n)%nat ->
    nibbleOf (snd (normalized st image4bit n)) i =
      if negb (d =? 0)%nat && (i / 2 <? n / 2)%nat &&
         negb (pairMixed (Z.of_nat d) (k (2 * (i / 2))%nat) (k (2 * (i / 2) + 1)%nat))
      then swapNibble (Z.of_nat d) (k i)
      else k i.
Proof.
  intros Himg Hbytes Hidx. cbv zeta.
  destruct (packPixels_state n (Lloyd.rgba st) image4bit Himg Hbytes Hidx)
    as (Hl & Hpb & Hdone & _ & _).
  unfold normalized. rewrite setDarkestColorToBlackAndIndex0_image.
  set (packed := packPixels n (Lloyd.rgba st) image4bit) in *.
  pose proof (findDarkest_index (createPalette (Lloyd.centroids st)
                (replicate numColors PaletteValue.black))) as Hd.
  set (d := snd (findDarkest (createPalette (Lloyd.centroids st)
                   (replicate numColors PaletteValue.black)))) in *.
  intros i Hi.
  destruct (Nat.eqb_spec 0 d) as [Hz|Hnz].
  { rewrite <- Hz. cbn [Nat.eqb negb andb]. apply Hdone, Hi. }
  assert ((d =? 0)%nat = false) as -> by (apply Nat.eqb_neq; lia). cbn [negb andb].
  destruct (remapPixels_bytes (buildLut d) packed (n / 2) ltac:(lia))
    as (_ & Hremap & Hrest).
  destruct (Nat.ltb_spec (i / 2) (n / 2)) as [Hbyte|Hbyte]; cbn [andb].
  - assert (isByte (packed !!! (i / 2)%nat)) as Hb
      by (apply (Forall_lookup_total_1 isByte); [exact Hpb | lia]).
    destruct (buildLut_nibbles d (packed !!! (i / 2)%nat) ltac:(lia) Hb) as [Hhi Hlo].
    cbv zeta in Hhi, Hlo.
    assert ((packed !!! (i / 2)%nat / 16) mod 16
            = Lloyd.rgba st !!! (2 * (i / 2) * 4 + 3)%nat) as Hh.
    { rewrite <- (Hdone (2 * (i / 2))%nat) by lia. unfold nibbleOf.
      rewrite even_double. replace (2 * (i / 2) / 2)%nat with (i / 2)%nat by lia.
      reflexivity. }
    assert (packed !!! (i / 2)%nat mod 16
            = Lloyd.rgba st !!! ((2 * (i / 2) + 1) * 4 + 3)%nat) as Hw.
    { rewrite <- (Hdone (2 * (i / 2) + 1)%nat) by lia. unfold nibbleOf.
      rewrite even_double_succ.
      replace ((2 * (i / 2) + 1) / 2)%nat with (i / 2)%nat by lia. reflexivity. }
    rewrite Hh, Hw in Hhi, Hlo.
    unfold nibbleOf at 1. rewrite (Hremap (i / 2)%nat Hbyte).
    destruct (Nat.even i) eqn:He.
    + rewrite Hhi. pose proof (even_half i He) as Hi2.
      replace (i * 4 + 3)%nat with (2 * (i / 2) * 4 + 3)%nat by lia.
      destruct (pairMixed _ _ _); reflexivity.
    + rewrite Hlo. pose proof (odd_half i He) as Hi2.
      replace (i * 4 + 3)%nat with ((2 * (i / 2) + 1) * 4 + 3)%nat by lia.
      destruct (pairMixed _ _ _); reflexivity.
  - rewrite <- (Hdone i Hi). unfold nibbleOf.
    rewrite !list_lookup_total_alt, Hrest by lia. reflexivity.
Qed.

(** X14: the nibble that [posterize] leaves for pixel [i] is the swap of
    its final cluster index [k i] (0 and [d] exchanged) exactly when [d] is
    not 0, the byte of the pixel is among the first [n / 2] bytes, and the
    two cluster indices packed in that byte are both in [{0, d}] or both
    outside it; in every other case it is [k i] itself. *)
Theorem posterize_nibbles
    (fuel : nat) (random : nat -> Z) (image4bit palette24bit rgbaIn : list Z) (n : nat) :
  (24 <= fuel)%nat ->
  (n * 4 <= length rgbaIn)%nat ->
  ((n + 1) / 2 <= length image4bit)%nat ->
  Forall isByte image4bit ->
  exists st image' palette',
    lloydLoop fuel (n * 4) (seeded random rgbaIn n) = Some st /\
    posterize fuel random image4bit palette24bit rgbaIn n = Some (image', palette') /\
    let d := snd (findDarkest (createPalette (Lloyd.centroids st)
                                 (replicate numColors PaletteValue.black))) in
    let k j := Lloyd.rgba st !!! (j * 4 + 3)%nat in
    forall i, (i < n)%nat ->
      nibbleOf image' i =
        if negb (d =? 0)%nat && (i / 2 <? n / 2)%nat &&
           negb (pairMixed (Z.of_nat d) (k (2 * (i / 2))%nat) (k (2 * (i / 2) + 1)%nat))
        then swapNibble (Z.of_nat d) (k i)
        else k i.
Proof.
  intros Hfuel Hin Himg Hbytes.
  destruct (posterize_result fuel random image4bit palette24bit rgbaIn n Hfuel)
    as (k & Hk & Hrun & Hres).
  set (st := lloydRuns (n * 4) (seeded random rgbaIn n) k) in *.
  exists st, (snd (normalized st image4bit n)),
         (copyPalette (fst (normalized st image4bit n)) palette24bit).
  split; [exact Hrun|]. split; [exact Hres|].
  destruct (lloydRuns_rgba random rgbaIn n k Hin) as (_ & _ & Hidx).
  fold st in Hidx. specialize (Hidx ltac:(lia)).
  exact (normalized_nibbles st image4bit n Himg Hbytes Hidx).
Qed.

Lemma posterize_nibbles_witness :
  exists st image' palette',
    lloydLoop 24 (3 * 4) (seeded (fun i => 2 * Z.of_nat i)
                            [200; 200; 200; 255; 10; 20; 30; 255; 0; 0; 0; 255] 3)
      = Some st /\
    posterize 24 (fun i => 2 * Z.of_nat i) [0x00; 0x00] (replicate 48 7)
              [200; 200; 200; 255; 10; 20; 30; 255; 0; 0; 0; 255] 3
      = Some (image', palette') /\
    let d := snd (findDarkest (createPalette (Lloyd.centroids st)
                                 (replicate numColors PaletteValue.black))) in
    let k j := Lloyd.rgba st !!! (j * 4 + 3)%nat in
    forall i, (i < 3)%nat ->
      nibbleOf image' i =
        if negb (d =? 0)%nat && (i / 2 <? 3 / 2)%nat &&
           negb (pairMixed (Z.of_nat d) (k (2 * (i / 2))%nat) (k (2 * (i / 2) + 1)%nat))
        then swapNibble (Z.of_nat d) (k i)
        else k i.
Proof.
  apply (posterize_nibbles 24 (fun i => 2 * Z.of_nat i) [0x00; 0x00] (replicate 48 7)
           [200; 200; 200; 255; 10; 20; 30; 255; 0; 0; 0; 255] 3).
  - lia.
  - simpl. lia.
  - simpl. lia.
  - repeat (apply Forall_cons; split; [unfold isByte; lia|]). apply Forall_nil. exact I.
Defined.

(** X15: for a pixel whose nibble was swapped as X14 says, or when the
    darkest index is 0, or whose cluster is neither 0 nor [d], the palette
    entry that its nibble indexes in the output of [posterize] is the colour
    of its cluster: black for the darkest cluster, the narrowed centroid for
    any other. *)
Theorem posterize_pixel_colour
    (fuel : nat) (random : nat -> Z) (image4bit palette24bit rgbaIn : list Z) (n : nat) :
  (24 <= fuel)%nat ->
  (n * 4 <= length rgbaIn)%nat ->
  ((n + 1) / 2 <= length image4bit)%nat ->
  Forall isByte image4bit ->
  (48 <= length palette24bit)%nat ->
  exists st image' palette',
    lloydLoop fuel (n * 4) (seeded random rgbaIn n) = Some st /\
    posterize fuel random image4bit palette24bit rgbaIn n = Some (image', palette') /\
    let d := snd (findDarkest (createPalette (Lloyd.centroids st)
                                 (replicate numColors PaletteValue.black))) in
    let k j := Lloyd.rgba st !!! (j * 4 + 3)%nat in
    forall i, (i < n)%nat ->
      d = 0%nat \/
      ((i / 2 < n / 2)%nat /\
       pairMixed (Z.of_nat d) (k (2 * (i / 2))%nat) (k (2 * (i / 2) + 1)%nat) = false) \/
      (k i <> 0 /\ k i <> Z.of_nat d) ->
      paletteEntry palette' (Z.to_nat (nibbleOf image' i)) = clusterColour st d (k i).
Proof.
  intros Hfuel Hin Himg Hbytes Hpal.
  destruct (posterize_result fuel random image4bit palette24bit rgbaIn n Hfuel)
    as (k & Hk & Hrun & Hres).
  set (st := lloydRuns (n * 4) (seeded random rgbaIn n) k) in *.
  exists st, (snd (normalized st image4bit n)),
         (copyPalette (fst (normalized st image4bit n)) palette24bit).
  split; [exact Hrun|]. split; [exact Hres|].
  destruct (lloydRuns_rgba random rgbaIn n k Hin) as (_ & _ & Hidx).
  fold st in Hidx. specialize (Hidx ltac:(lia)).
  pose proof (normalized_nibbles st image4bit n Himg Hbytes Hidx) as Hnib.
  destruct (normalized_palette st image4bit n) as (Hlt & Hblack & Hd & Hothers).
  destruct (copyPalette_entries (fst (normalized st image4bit n)) palette24bit Hpal)
    as (_ & Hcopy & _).
  cbv beta zeta in *.
  set (d := snd (findDarkest (createPalette (Lloyd.centroids st)
                   (replicate numColors PaletteValue.black)))) in *.
  intros i Hi Hcase. rewrite (Hnib i Hi). clear Hnib.
  pose proof (Hidx i Hi) as Hki. unfold clusterColour.
  revert Hcase Hki. generalize (Lloyd.rgba st !!! (i * 4 + 3)%nat). intros ki Hcase Hki.
  assert (forall v : Z, 0 <= v <= 15 ->
            paletteEntry (copyPalette (fst (normalized st image4bit n)) palette24bit)
                         (Z.to_nat v)
            = fst (normalized st image4bit n) !!! Z.to_nat v) as Hentry
    by (intros v Hv; apply Hcopy; lia).
  destruct (negb (d =? 0)%nat && (i / 2 <? n / 2)%nat &&
            negb (pairMixed (Z.of_nat d) _ _)) eqn:Hcond.
  - rewrite !andb_true_iff, negb_true_iff, Nat.eqb_neq in Hcond.
    destruct Hcond as [[Hd0 _] _]. unfold swapNibble.
    destruct (Z.eqb_spec ki 0) as [->|Hk0].
    + rewrite Nat2Z.id, (Hcopy d Hlt), (Hd Hd0).
      destruct (Z.eqb_spec 0 (Z.of_nat d)) as [Heq|_]; [lia | reflexivity].
    + destruct (Z.eqb_spec ki (Z.of_nat d)) as [->|Hkd].
      * rewrite (Hentry 0 ltac:(lia)). exact Hblack.
      * rewrite (Hentry ki Hki). apply Hothers; lia.
  - assert (d = 0%nat \/ (ki <> 0 /\ ki <> Z.of_nat d)) as Hleft.
    { destruct Hcase as [Hd0|[[Hbyte Hmix]|Hout]]; [left; exact Hd0| |right; exact Hout].
      rewrite Hmix in Hcond. apply Nat.ltb_lt in Hbyte. rewrite Hbyte in Hcond.
      cbn [negb andb] in Hcond. rewrite !andb_true_r in Hcond.
      apply negb_false_iff, Nat.eqb_eq in Hcond. left. exact Hcond. }
    rewrite (Hentry ki Hki).
    destruct Hleft as [Hd0|[Hk0 Hkd]].
    + rewrite Hd0. destruct (Z.eqb_spec ki (Z.of_nat 0)) as [->|Hne]; [exact Hblack|].
      apply Hothers; lia.
    + destruct (Z.eqb_spec ki (Z.of_nat d)) as [Heq|_]; [contradiction|].
      apply Hothers; lia.
Qed.

Lemma posterize_pixel_colour_witness :
  exists st image' palette',
    lloydLoop 24 (3 * 4) (seeded (fun i => 2 * Z.of_nat i)
                            [200; 200; 200; 255; 10; 20; 30; 255; 0; 0; 0; 255] 3)
      = Some st /\
    posterize 24 (fun i => 2 * Z.of_nat i) [0x00; 0x00] (replicate 48 7)
              [200; 200; 200; 255; 10; 20; 30; 255; 0; 0; 0; 255] 3
      = Some (image', palette') /\
    let d := snd (findDarkest (createPalette (Lloyd.centroids st)
                                 (replicate numColors PaletteValue.black))) in
    let k j := Lloyd.rgba st !!! (j * 4 + 3)%nat in
    forall i, (i < 3)%nat ->
      d = 0%nat \/
      ((i / 2 < 3 / 2)%nat /\
       pairMixed (Z.of_nat d) (k (2 * (i / 2))%nat) (k (2 * (i / 2) + 1)%nat) = false) \/
      (k i <> 0 /\ k i <> Z.of_nat d) ->
      paletteEntry palette' (Z.to_nat (nibbleOf image' i)) = clusterColour st d (k i).
Proof.
  apply (posterize_pixel_colour 24 (fun i => 2 * Z.of_nat i) [0x00; 0x00]
           (replicate 48 7) [200; 200; 200; 255; 10; 20; 30; 255; 0; 0; 0; 255] 3).
  - lia.
  - simpl. lia.
  - simpl. lia.
  - repeat (apply Forall_cons; split; [unfold isByte; lia|]). apply Forall_nil. exact I.
  - simpl. lia.
Defined.

Ltac Zify.zify_post_hook ::= idtac.
